(** * R2R: shared pipe state, pipe log draining, KG response ranking and the
      Postgres document store

    A shallow embedding of
      - [py/core/base/pipes/base_pipe.py]      ([AsyncState], [AsyncPipe.run]),
      - [py/core/pipes/retrieval/kg_search_pipe.py] ([filter_responses]),
      - [py/core/providers/database/document.py]   ([PostgresDocumentHandler]),
    followed by the properties established about them.

    Conventions.  A Python call that may raise is a value of [result]: either
    [Ok v] or [Raise e] with [e] the exception.  A method that mutates its
    object takes the object's state and returns the new state next to the
    result.  Python [int]s are [Z]; a [float] is the rational that the
    binary64 number stands for. *)

From Stdlib Require Import ZArith QArith String Ascii List Lia.
From Stdlib Require Import Sorting.Sorted Sorting.Permutation.
From stdpp Require Import base option gmap strings list fin_maps.

Set Warnings "-register-all".

Local Open Scope string_scope.
Local Open Scope list_scope.
Local Open Scope Z_scope.

(* ===================================================================== *)
(** * Python values, exceptions and results                                *)
(* ===================================================================== *)

Module Py.

(** The exceptions that the embedded code raises or lets escape. *)
Inductive exn : Type :=
| ValueError (msg : string)
| KeyError (key : string)
| TypeError (msg : string)
| IndexError (msg : string)
| JSONDecodeError
| RecursionError
| R2RException (status_code : Z) (message : string)
| UniqueViolationError
| DeadlockDetectedError
| AttributeError (msg : string)
| PostgresError (msg : string).

Inductive result (A : Type) : Type :=
| Ok (a : A)
| Raise (e : exn).
Arguments Ok {A} a.
Arguments Raise {A} e.

Definition bind {A B} (r : result A) (k : A -> result B) : result B :=
  match r with
  | Ok a => k a
  | Raise e => Raise e
  end.

(** A Python number as [json.loads] produces it: a finite value, the two
    infinities and NaN. *)
Inductive pynum : Type :=
| Fin (q : Q)
| PosInf
| NegInf
| NaN.

(** The values that flow through the embedded functions. *)
Inductive pyval : Type :=
| PNone
| PBool (b : bool)
| PNum (n : pynum)
| PStr (s : string)
| PList (items : list pyval)
| PDict (entries : list (string * pyval)).

(** [a > b] on numbers; every comparison with NaN is false. *)
Definition num_gtb (a b : pynum) : bool :=
  match a, b with
  | NaN, _ | _, NaN => false
  | PosInf, PosInf => false
  | PosInf, _ => true
  | _, PosInf => false
  | NegInf, _ => false
  | Fin _, NegInf => true
  | Fin x, Fin y => (Qnum y * QDen x <? Qnum x * QDen y)%Z
  end.

Definition num_is_zero (a : pynum) : bool :=
  match a with
  | Fin q => (Qnum q =? 0)%Z
  | _ => false
  end.

(** Python truth value testing, as used by [if x], [x or y] and [not x]. *)
Definition truthy (v : pyval) : bool :=
  match v with
  | PNone => false
  | PBool b => b
  | PNum n => negb (num_is_zero n)
  | PStr s => negb (String.eqb s "")
  | PList items => match items with [] => false | _ => true end
  | PDict entries => match entries with [] => false | _ => true end
  end.

(** [d[k]] lookup in a dict kept in insertion order. *)
Fixpoint dict_get (k : string) (d : list (string * pyval)) : option pyval :=
  match d with
  | [] => None
  | (k', v) :: d' => if String.eqb k k' then Some v else dict_get k d'
  end.

(** [d[k] = v]: an existing key keeps its position. *)
Fixpoint dict_set (k : string) (v : pyval) (d : list (string * pyval))
  : list (string * pyval) :=
  match d with
  | [] => [(k, v)]
  | (k', v') :: d' =>
      if String.eqb k k' then (k, v) :: d' else (k', v') :: dict_set k v d'
  end.

#[export] Instance result_ret : MRet result := fun A a => Ok a.
#[export] Instance result_bind : MBind result :=
  fun A B k r => bind r k.

Ltac unfold_bind := unfold mbind, result_bind, bind.

(** [[f(a) for a in l]], stopping at the first exception. *)
Fixpoint traverse {A B} (f : A -> result B) (l : list A) : result (list B) :=
  match l with
  | [] => Ok []
  | a :: l' => b ← f a; bs ← traverse f l'; Ok (b :: bs)
  end.

End Py.

(* ===================================================================== *)
(** * [AsyncState]: the two-level state shared between pipes              *)
(* ===================================================================== *)

Module AsyncState.
Import Py.

(** [self.data]: outer key to bucket, bucket: inner key to value.  Every
    method body runs under [async with self.lock], so each call is one atomic
    transition of [data]. *)
Abbreviation data := (gmap string (gmap string pyval)).

Definition missing_outer (outer_key : string) : exn :=
  ValueError ("Key " +:+ outer_key +:+ " does not exist in the state.").

Definition missing_inner (inner_key : option string) : exn :=
  ValueError ("Key " +:+ default "None" inner_key
              +:+ " does not exist in the state.").

(** [update(outer_key, values)]; [values] is [Some d] for a dict and [None]
    for any other object. *)
Definition update (outer_key : string) (values : option (list (string * pyval)))
    (st : data) : data * result unit :=
  match values with
  | None => (st, Raise (ValueError "Values must be contained in a dictionary."))
  | Some kvs =>
      let bucket := default ∅ (st !! outer_key) in
      let bucket' :=
        fold_left (fun b kv => <[fst kv := snd kv]> b) kvs bucket in
      (<[outer_key := bucket']> st, Ok tt)
  end.

(** [get(outer_key, inner_key, default=None)]; the last line of the absent
    inner key case is [return default or {}]. *)
Definition get (outer_key inner_key : string) (default : pyval) (st : data)
  : data * result pyval :=
  match st !! outer_key with
  | None => (st, Raise (missing_outer outer_key))
  | Some bucket =>
      match bucket !! inner_key with
      | None => (st, Ok (if truthy default then default else PDict []))
      | Some v => (st, Ok v)
      end
  end.

(** [not inner_key] for an [Optional[str]]. *)
Definition key_truthy (inner_key : option string) : bool :=
  match inner_key with
  | None => false
  | Some k => negb (String.eqb k "")
  end.

(** [delete(outer_key, inner_key=None)].  In the [else] branch
    [self.data[outer_key]] is evaluated first and raises [KeyError] when the
    outer key is absent. *)
Definition delete (outer_key : string) (inner_key : option string) (st : data)
  : data * result unit :=
  if bool_decide (is_Some (st !! outer_key)) && negb (key_truthy inner_key)
  then (base.delete outer_key st, Ok tt)
  else
    match st !! outer_key with
    | None => (st, Raise (KeyError outer_key))
    | Some bucket =>
        match inner_key with
        | None => (st, Raise (missing_inner None))
        | Some k =>
            match bucket !! k with
            | None => (st, Raise (missing_inner inner_key))
            | Some _ => (<[outer_key := base.delete k bucket]> st, Ok tt)
            end
        end
    end.

(** The errors of the NotFound class: [KeyError], and the [ValueError] whose
    message reports a key that does not exist in the state. *)
Definition is_not_found (e : exn) : bool :=
  match e with
  | KeyError _ => true
  | ValueError msg =>
      match msg with
      | String "K" (String "e" (String "y" (String " " _))) => true
      | _ => false
      end
  | _ => false
  end.

End AsyncState.

(* ===================================================================== *)
(** * [json.loads]                                                         *)
(* ===================================================================== *)

(** The decoder of Python's standard [json] module, as far as
    [filter_responses] depends on it.  Python strings are kept as their UTF-8
    bytes.  The decoder takes the two limits of the interpreter that it can
    run into: how many containers it may still enter before
    [RecursionError], and the digit limit of [int] conversion.  It recurses
    on fuel; [json_loads] supplies enough of it ([JsonFacts.json_loads_fuel]
    shows that it never runs out). *)
Module Json.
Import Py.

(** [max_depth]: the containers (arrays, objects) that may be entered, one
    inside the other, before the interpreter raises [RecursionError].
    [int_max_str_digits]: [sys.get_int_max_str_digits()], 0 for no limit. *)
Record Limits : Type := {
  max_depth : nat;
  int_max_str_digits : nat
}.

(** [Invalid] is [JSONDecodeError]; [Failed e] is another exception [e]. *)
Inductive outcome (A : Type) : Type :=
| Parsed (a : A) (rest : string)
| Invalid
| Failed (e : exn)
| OutOfFuel.
Arguments Parsed {A} a rest.
Arguments Invalid {A}.
Arguments Failed {A} e.
Arguments OutOfFuel {A}.

Definition dquote : ascii := "034"%char.
Definition backslash : ascii := "092"%char.

Definition is_ws (c : ascii) : bool :=
  (c =? " ")%char || (c =? "009")%char || (c =? "010")%char
  || (c =? "013")%char.

Fixpoint skip_ws (s : string) : string :=
  match s with
  | String c r => if is_ws c then skip_ws r else s
  | EmptyString => s
  end.

Fixpoint strip_prefix (p s : string) : option string :=
  match p, s with
  | EmptyString, _ => Some s
  | String a p', String b s' =>
      if (a =? b)%char then strip_prefix p' s' else None
  | String _ _, EmptyString => None
  end.

Definition code (c : ascii) : Z := Z.of_N (N_of_ascii c).
Definition chr (n : Z) : ascii := ascii_of_N (Z.to_N n).

Definition digit_val (c : ascii) : option Z :=
  let n := code c in
  if (48 <=? n) && (n <=? 57) then Some (n - 48) else None.

Definition hex_val (c : ascii) : option Z :=
  let n := code c in
  if (48 <=? n) && (n <=? 57) then Some (n - 48)
  else if (97 <=? n) && (n <=? 102) then Some (n - 87)
  else if (65 <=? n) && (n <=? 70) then Some (n - 55)
  else None.

Definition hex4 (a b c d : ascii) : option Z :=
  match hex_val a, hex_val b, hex_val c, hex_val d with
  | Some x, Some y, Some z, Some w => Some (((x * 16 + y) * 16 + z) * 16 + w)
  | _, _, _, _ => None
  end.

(** UTF-8 bytes of a code point (a lone surrogate is kept as three bytes). *)
Definition utf8 (u : Z) : string :=
  if u <? 128 then String (chr u) EmptyString
  else if u <? 2048 then
    String (chr (192 + u / 64)) (String (chr (128 + u mod 64)) EmptyString)
  else if u <? 65536 then
    String (chr (224 + u / 4096))
      (String (chr (128 + (u / 64) mod 64))
         (String (chr (128 + u mod 64)) EmptyString))
  else
    String (chr (240 + u / 262144))
      (String (chr (128 + (u / 4096) mod 64))
         (String (chr (128 + (u / 64) mod 64))
            (String (chr (128 + u mod 64)) EmptyString))).

Definition simple_escape (c : ascii) : option ascii :=
  if (c =? dquote)%char then Some dquote
  else if (c =? backslash)%char then Some backslash
  else if (c =? "/")%char then Some "/"%char
  else if (c =? "b")%char then Some "008"%char
  else if (c =? "f")%char then Some "012"%char
  else if (c =? "n")%char then Some "010"%char
  else if (c =? "r")%char then Some "013"%char
  else if (c =? "t")%char then Some "009"%char
  else None.

(** The low half of a surrogate pair, when [s] starts with one. *)
Definition low_surrogate (s : string) : option (option (Z * string)) :=
  match s with
  | String b (String u (String h1 (String h2 (String h3 (String h4 r))))) =>
      if (b =? backslash)%char && (u =? "u")%char then
        match hex4 h1 h2 h3 h4 with
        | Some lo =>
            if (56320 <=? lo) && (lo <=? 57343) then Some (Some (lo, r))
            else Some None
        | None => None
        end
      else Some None
  | String b (String u _) =>
      if (b =? backslash)%char && (u =? "u")%char then None else Some None
  | _ => Some None
  end.

(** The body of a string literal, after the opening quote, up to and
    including the closing quote (strict mode: no raw control characters). *)
Fixpoint scan_string (s : string) : option (string * string) :=
  match s with
  | EmptyString => None
  | String c r =>
      if (c =? dquote)%char then Some (EmptyString, r)
      else if (c =? backslash)%char then
        match r with
        | String e r1 =>
            if (e =? "u")%char then
              match r1 with
              | String h1 (String h2 (String h3 (String h4 r2))) =>
                  match hex4 h1 h2 h3 h4 with
                  | None => None
                  | Some hi =>
                      if (55296 <=? hi) && (hi <=? 56319) then
                        match r2 with
                        | String b (String u (String l1 (String l2
                            (String l3 (String l4 r3))))) =>
                            match low_surrogate r2 with
                            | None => None
                            | Some (Some (lo, _)) =>
                                let u32 :=
                                  65536 + (hi - 55296) * 1024 + (lo - 56320) in
                                match scan_string r3 with
                                | Some (body, rest) =>
                                    Some (utf8 u32 +:+ body, rest)
                                | None => None
                                end
                            | Some None =>
                                match scan_string r2 with
                                | Some (body, rest) =>
                                    Some (utf8 hi +:+ body, rest)
                                | None => None
                                end
                            end
                        | _ =>
                            match low_surrogate r2 with
                            | None => None
                            | Some _ =>
                                match scan_string r2 with
                                | Some (body, rest) =>
                                    Some (utf8 hi +:+ body, rest)
                                | None => None
                                end
                            end
                        end
                      else
                        match scan_string r2 with
                        | Some (body, rest) => Some (utf8 hi +:+ body, rest)
                        | None => None
                        end
                  end
              | _ => None
              end
            else
              match simple_escape e with
              | Some c' =>
                  match scan_string r1 with
                  | Some (body, rest) => Some (String c' body, rest)
                  | None => None
                  end
              | None => None
              end
        | EmptyString => None
        end
      else if code c <? 32 then None
      else
        match scan_string r with
        | Some (body, rest) => Some (String c body, rest)
        | None => None
        end
  end.

Fixpoint take_digits (s : string) : list Z * string :=
  match s with
  | String c r =>
      match digit_val c with
      | Some d => let '(ds, rest) := take_digits r in (d :: ds, rest)
      | None => ([], s)
      end
  | EmptyString => ([], s)
  end.

Definition digits_value (ds : list Z) : Z :=
  fold_left (fun a d => 10 * a + d) ds 0.

(** [0|[1-9]\d*] *)
Definition scan_int (s : string) : option (list Z * string) :=
  match s with
  | String c r =>
      match digit_val c with
      | Some d =>
          if d =? 0 then Some ([0], r)
          else let '(ds, rest) := take_digits r in Some (d :: ds, rest)
      | None => None
      end
  | EmptyString => None
  end.

(** [(\.\d+)?] *)
Definition scan_frac (s : string) : list Z * string :=
  match s with
  | String c r =>
      if (c =? ".")%char then
        match take_digits r with
        | ([], _) => ([], s)
        | (ds, rest) => (ds, rest)
        end
      else ([], s)
  | EmptyString => ([], s)
  end.

(** [([eE][-+]?\d+)?] *)
Definition scan_exp (s : string) : option Z * string :=
  match s with
  | String c r =>
      if (c =? "e")%char || (c =? "E")%char then
        let '(sign, r') :=
          match r with
          | String c1 r1 =>
              if (c1 =? "-")%char then (-1, r1)
              else if (c1 =? "+")%char then (1, r1)
              else (1, r)
          | EmptyString => (1, r)
          end in
        match take_digits r' with
        | ([], _) => (None, s)
        | (ds, rest) => (Some (sign * digits_value ds), rest)
        end
      else (None, s)
  | EmptyString => (None, s)
  end.

(** [float(text)]: the binary64 number nearest to [n/d] (ties to even), for
    [n >= 0] and [d > 0]; infinity from half an ulp above the largest finite
    number on, zero below half the smallest subnormal. *)
Definition round_binary64 (n d : Z) : pynum :=
  if n =? 0 then Fin 0
  else
    let e0 := Z.log2 n - Z.log2 d in
    let below :=
      if 0 <=? e0 then n <? d * 2 ^ e0 else n * 2 ^ (- e0) <? d in
    let e := if below then e0 - 1 else e0 in          (* floor (log2 (n/d)) *)
    let k := Z.max (e - 52) (-1074) in                (* exponent of the ulp *)
    let '(n', d') :=
      if 0 <=? k then (n, d * 2 ^ k) else (n * 2 ^ (- k), d) in
    let q := n' / d' in
    let r := n' mod d' in
    let m :=
      if 2 * r <? d' then q
      else if d' <? 2 * r then q + 1
      else if Z.even q then q else q + 1 in
    if 0 <=? k then
      if 2 ^ 1024 <=? m * 2 ^ k then PosInf else Fin (Qmake (m * 2 ^ k) 1)
    else Fin (Qmake m (Z.to_pos (2 ^ (- k)))).

Definition negate (a : pynum) : pynum :=
  match a with
  | Fin q => Fin (Qopp q)
  | PosInf => NegInf
  | NegInf => PosInf
  | NaN => NaN
  end.

(** [int(text)] for a literal of [digits] decimal digits: refused with
    [ValueError] when it has more than 640 digits and more than the limit. *)
Definition int_refused (lim : Limits) (digits : nat) : bool :=
  (640 <? digits)%nat && (0 <? int_max_str_digits lim)%nat
  && (int_max_str_digits lim <? digits)%nat.

(** A number literal: an [int] when it has neither fraction nor exponent, a
    [float] otherwise (the sign of a zero takes no part in any comparison
    and is not kept).  [None]: no number starts here. *)
Definition scan_number (lim : Limits) (s : string)
  : option (result pynum * string) :=
  let '(neg, s1) :=
    match s with
    | String c r => if (c =? "-")%char then (true, r) else (false, s)
    | EmptyString => (false, s)
    end in
  match scan_int s1 with
  | None => None
  | Some (ids, s2) =>
      let '(fds, s3) := scan_frac s2 in
      let '(ex, s4) := scan_exp s3 in
      match fds, ex with
      | [], None =>
          if int_refused lim (length ids) then
            Some (Raise (ValueError
                           "Exceeds the limit for integer string conversion"),
                  s4)
          else
            let v := Fin (Qmake (digits_value ids) 1) in
            Some (Ok (if neg : bool then negate v else v), s4)
      | _, _ =>
          let mant := digits_value (ids ++ fds) in
          let e10 := default 0 ex - Z.of_nat (length fds) in
          let v :=
            if 0 <=? e10 then round_binary64 (mant * 10 ^ e10) 1
            else round_binary64 mant (10 ^ (- e10)) in
          Some (Ok (if neg : bool then negate v else v), s4)
      end
  end.

Definition scan_constant (lim : Limits) (s : string) : outcome pyval :=
  match strip_prefix "null" s with
  | Some r => Parsed PNone r
  | None =>
  match strip_prefix "true" s with
  | Some r => Parsed (PBool true) r
  | None =>
  match strip_prefix "false" s with
  | Some r => Parsed (PBool false) r
  | None =>
  match scan_number lim s with
  | Some (Ok n, r) => Parsed (PNum n) r
  | Some (Raise e, _) => Failed e
  | None =>
  match strip_prefix "NaN" s with
  | Some r => Parsed (PNum NaN) r
  | None =>
  match strip_prefix "Infinity" s with
  | Some r => Parsed (PNum PosInf) r
  | None =>
  match strip_prefix "-Infinity" s with
  | Some r => Parsed (PNum NegInf) r
  | None => Invalid
  end end end end end end end.

(** [depth] is the number of containers that may still be entered: the
    scanner raises [RecursionError] when it meets the opening bracket of one
    more. *)
Fixpoint parse_value (lim : Limits) (fuel : nat) (depth : nat) (s : string)
    {struct fuel} : outcome pyval :=
  match fuel with
  | O => OutOfFuel
  | S fuel' =>
      match s with
      | EmptyString => Invalid
      | String c r =>
          if (c =? dquote)%char then
            match scan_string r with
            | Some (body, rest) => Parsed (PStr body) rest
            | None => Invalid
            end
          else if (c =? "{")%char then
            match depth with
            | O => Failed RecursionError
            | S depth' =>
                match skip_ws r with
                | String c1 r1 =>
                    if (c1 =? "}")%char then Parsed (PDict []) r1
                    else parse_members lim fuel' depth' (skip_ws r) []
                | EmptyString => Invalid
                end
            end
          else if (c =? "[")%char then
            match depth with
            | O => Failed RecursionError
            | S depth' =>
                match skip_ws r with
                | String c1 r1 =>
                    if (c1 =? "]")%char then Parsed (PList []) r1
                    else parse_elements lim fuel' depth' (skip_ws r) []
                | EmptyString => Invalid
                end
            end
          else scan_constant lim s
      end
  end

with parse_elements (lim : Limits) (fuel : nat) (depth : nat) (s : string)
    (acc : list pyval) {struct fuel} : outcome pyval :=
  match fuel with
  | O => OutOfFuel
  | S fuel' =>
      match parse_value lim fuel' depth s with
      | Parsed v rest =>
          match skip_ws rest with
          | String c r =>
              if (c =? ",")%char then
                parse_elements lim fuel' depth (skip_ws r) (acc ++ [v])
              else if (c =? "]")%char then Parsed (PList (acc ++ [v])) r
              else Invalid
          | EmptyString => Invalid
          end
      | Invalid => Invalid
      | Failed e => Failed e
      | OutOfFuel => OutOfFuel
      end
  end

with parse_members (lim : Limits) (fuel : nat) (depth : nat) (s : string)
    (acc : list (string * pyval)) {struct fuel} : outcome pyval :=
  match fuel with
  | O => OutOfFuel
  | S fuel' =>
      match s with
      | String c r =>
          if (c =? dquote)%char then
            match scan_string r with
            | Some (key, rest) =>
                match skip_ws rest with
                | String c2 r2 =>
                    if (c2 =? ":")%char then
                      match parse_value lim fuel' depth (skip_ws r2) with
                      | Parsed v rest2 =>
                          match skip_ws rest2 with
                          | String c3 r3 =>
                              if (c3 =? ",")%char then
                                parse_members lim fuel' depth (skip_ws r3)
                                  (dict_set key v acc)
                              else if (c3 =? "}")%char then
                                Parsed (PDict (dict_set key v acc)) r3
                              else Invalid
                          | EmptyString => Invalid
                          end
                      | Invalid => Invalid
                      | Failed e => Failed e
                      | OutOfFuel => OutOfFuel
                      end
                    else Invalid
                | EmptyString => Invalid
                end
            | None => Invalid
            end
          else Invalid
      | EmptyString => Invalid
      end
  end.

Definition fuel_for (s : string) : nat := 2 * String.length s + 2.

(** What enough fuel gives: an answer, and a rest shorter than the input. *)
Definition answers (r : outcome pyval) (s : string) : Prop :=
  r <> OutOfFuel
  /\ forall v rest,
      r = Parsed v rest -> (String.length rest < String.length s)%nat.

(** [json.loads(s)]: one value between optional whitespace, nothing after. *)
Definition decode (lim : Limits) (s : string) : outcome pyval :=
  match parse_value lim (fuel_for s) (max_depth lim) (skip_ws s) with
  | Parsed v rest =>
      match skip_ws rest with
      | EmptyString => Parsed v EmptyString
      | String _ _ => Invalid
      end
  | Invalid => Invalid
  | Failed e => Failed e
  | OutOfFuel => OutOfFuel
  end.

Definition json_loads (lim : Limits) (s : string) : result pyval :=
  match decode lim s with
  | Parsed v _ => Ok v
  | Failed e => Raise e
  | Invalid | OutOfFuel => Raise JSONDecodeError
  end.

(** Limits that the text [s] cannot reach. *)
Definition unlimited (s : string) : Limits :=
  {| max_depth := String.length s; int_max_str_digits := 0 |}.

(** Writes a JSON text with ['] where the text has a double quote. *)
Fixpoint dq (s : string) : string :=
  match s with
  | EmptyString => EmptyString
  | String c r => String (if (c =? "'")%char then dquote else c) (dq r)
  end.

End Json.

(* ===================================================================== *)
(** * Descending stable sort                                               *)
(* ===================================================================== *)

(** Python's [sorted(..., reverse=True)] and SQL's [ORDER BY ... DESC] as an
    insertion sort: descending for the strict order [gtb], and stable (of two
    elements neither of which is greater, the earlier one stays first). *)
Module Desc.
Section Sort.
Context {A : Type} (gtb : A -> A -> bool).

Fixpoint insert (x : A) (l : list A) : list A :=
  match l with
  | [] => [x]
  | y :: l' => if gtb y x then y :: insert x l' else x :: l
  end.

Definition sort (l : list A) : list A := fold_right insert [] l.

(** [a] may stand before [b]: [b] is not greater. *)
Definition precedes (a b : A) : Prop := gtb b a = false.

End Sort.
End Desc.

(* ===================================================================== *)
(** * [KGSearchSearchPipe.filter_responses]                                *)
(* ===================================================================== *)

Module KGSearch.
Import Py.

(** [v[k]] with a string subscript. *)
Definition getitem (v : pyval) (k : string) : result pyval :=
  match v with
  | PDict d =>
      match dict_get k d with
      | Some x => Ok x
      | None => Raise (KeyError k)
      end
  | PList _ => Raise (TypeError "list indices must be integers or slices")
  | PStr _ => Raise (TypeError "string indices must be integers")
  | PNone | PBool _ | PNum _ => Raise (TypeError "object is not subscriptable")
  end.

(** The numbers of Python's ordering: [int], [float] and [bool]. *)
Definition as_number (v : pyval) : result pynum :=
  match v with
  | PNum n => Ok n
  | PBool b => Ok (Fin (if b then 1 else 0)%Q)
  | _ => Raise (TypeError "ordering not supported between these types")
  end.

(** [v > 0] *)
Definition gt_zero (v : pyval) : result bool :=
  n ← as_number v; Ok (num_gtb n (Fin 0)).

(** [for item in v]: a list yields its items, a dict its keys, a string its
    characters (here one string per byte: only their being strings matters). *)
Definition iterate (v : pyval) : result (list pyval) :=
  match v with
  | PList items => Ok items
  | PDict d => Ok (map (fun kv => PStr (fst kv)) d)
  | PStr s => Ok (map (fun c => PStr (String c EmptyString))
                    (list_ascii_of_string s))
  | PNone | PBool _ | PNum _ => Raise (TypeError "object is not iterable")
  end.

(** The inner loop: [try: if item["score"] > 0: append] with
    [except KeyError: continue]. *)
Fixpoint scan_points (items : list pyval) (filtered : list pyval)
  : result (list pyval) :=
  match items with
  | [] => Ok filtered
  | item :: rest =>
      match (sc ← getitem item "score"; gt_zero sc) with
      | Ok true => scan_points rest (filtered ++ [item])
      | Ok false => scan_points rest filtered
      | Raise (KeyError _) => scan_points rest filtered
      | Raise e => Raise e
      end
  end.

(** The body of the outer [try] for one response; [lim] are the limits of
    the interpreter that [json.loads] runs under. *)
Definition scan_response (lim : Json.Limits) (response : string)
    (filtered : list pyval) : result (list pyval) :=
  parsed_response ← Json.json_loads lim response;
  points ← getitem parsed_response "points";
  items ← iterate points;
  scan_points items filtered.

(** The outer loop.  [except json.JSONDecodeError] and [except KeyError] both
    [continue]; they are reached from [json.loads] and from ["points"] only,
    before anything of that response is appended. *)
Fixpoint scan_responses (lim : Json.Limits) (map_responses : list string)
    (filtered : list pyval) : result (list pyval) :=
  match map_responses with
  | [] => Ok filtered
  | response :: rest =>
      match scan_response lim response filtered with
      | Ok filtered' => scan_responses lim rest filtered'
      | Raise JSONDecodeError => scan_responses lim rest filtered
      | Raise (KeyError _) => scan_responses lim rest filtered
      | Raise e => Raise e
      end
  end.

(** [sorted(xs, key=lambda x: x["score"], reverse=True)] on items decorated
    with their keys. *)
Definition score_gtb (y x : pynum * pyval) : bool := num_gtb (fst y) (fst x).

Definition sort_desc (l : list (pynum * pyval)) : list (pynum * pyval) :=
  Desc.sort score_gtb l.

(** [key=lambda x: x["score"]] *)
Definition decorate (item : pyval) : result (pynum * pyval) :=
  sc ← getitem item "score"; n ← as_number sc; Ok (n, item).

(** [response.get("description", "")] *)
Definition description (item : pyval) : result pyval :=
  match item with
  | PDict d => Ok (default (PStr "") (dict_get "description" d))
  | _ => Raise (AttributeError "object has no attribute 'get'")
  end.

Definition as_str (v : pyval) : result string :=
  match v with
  | PStr s => Ok s
  | _ => Raise (TypeError "sequence item: expected str instance")
  end.

Definition newline : string := String "010"%char EmptyString.

Fixpoint join (sep : string) (parts : list string) : string :=
  match parts with
  | [] => ""
  | [p] => p
  | p :: rest => p +:+ sep +:+ join sep rest
  end.

Definition filter_responses (lim : Json.Limits) (map_responses : list string)
  : result string :=
  filtered_responses ← scan_responses lim map_responses [];
  decorated ← traverse decorate filtered_responses;
  let filtered_responses := map snd (sort_desc decorated) in
  descriptions ← traverse description filtered_responses;
  parts ← traverse as_str descriptions;
  Ok (join newline parts).

(** *** What the function computes on well-formed responses *)

Definition numeric (v : pyval) : bool :=
  match v with
  | PNum _ | PBool _ => true
  | _ => false
  end.

Definition number_of (v : pyval) : pynum :=
  match v with
  | PNum n => n
  | PBool b => Fin (if b then 1 else 0)%Q
  | _ => NaN
  end.

(** The score of an item (NaN when it has none). *)
Definition score_of (item : pyval) : pynum :=
  match item with
  | PDict d =>
      match dict_get "score" d with
      | Some v => number_of v
      | None => NaN
      end
  | _ => NaN
  end.

(** The item has a score greater than 0. *)
Definition retained (item : pyval) : bool := num_gtb (score_of item) (Fin 0).

Definition description_of (item : pyval) : string :=
  match item with
  | PDict d =>
      match dict_get "description" d with
      | Some (PStr s) => s
      | _ => ""
      end
  | _ => ""
  end.

(** An item is an object whose score, if any, is a number, and whose
    description, if it has a positive score and a description, is a string. *)
Definition well_formed_item (item : pyval) : bool :=
  match item with
  | PDict d =>
      match dict_get "score" d with
      | None => true
      | Some sc =>
          numeric sc
          && (negb (num_gtb (number_of sc) (Fin 0))
              || match dict_get "description" d with
                 | None | Some (PStr _) => true
                 | Some _ => false
                 end)
      end
  | _ => false
  end.

(** The point list of a response (empty when it has none). *)
Definition points_of (lim : Json.Limits) (response : string) : list pyval :=
  match Json.json_loads lim response with
  | Ok (PDict d) =>
      match dict_get "points" d with
      | Some (PList items) => items
      | _ => []
      end
  | _ => []
  end.

(** A response either is not JSON ([json.loads] raises [JSONDecodeError]),
    or is a JSON object whose "points", if present, is an array of
    well-formed items.  A text that takes [json.loads] beyond a limit of the
    interpreter is not well-formed. *)
Definition well_formed_response (lim : Json.Limits) (response : string)
  : bool :=
  match Json.json_loads lim response with
  | Raise JSONDecodeError => true
  | Raise _ => false
  | Ok (PDict d) =>
      match dict_get "points" d with
      | None => true
      | Some (PList items) => forallb well_formed_item items
      | Some _ => false
      end
  | Ok _ => false
  end.

(** A well-formed item that is kept. *)
Definition good (item : pyval) : Prop :=
  well_formed_item item = true /\ retained item = true.

(** An item next to its sort key. *)
Definition keyed (item : pyval) : pynum * pyval := (score_of item, item).

(** Of two items in this order the second does not have the greater score. *)
Definition not_below (a b : pyval) : Prop :=
  num_gtb (score_of b) (score_of a) = false.

(** A response that the loop passes over: [json.loads] raises
    [JSONDecodeError] for it, or it is a JSON object without "points". *)
Definition skipped (lim : Json.Limits) (response : string) : Prop :=
  Json.json_loads lim response = Raise JSONDecodeError
  \/ (exists d, Json.json_loads lim response = Ok (PDict d)
                /\ dict_get "points" d = None).

(** The responses of the merge example. *)
Definition example_responses : list string :=
  [ Json.dq "{'points':[{'score':0.9,'description':'A'}]}";
    "not json";
    Json.dq "{'points':[{'description':'no score'}]}" ].

End KGSearch.

(* ===================================================================== *)
(** * [AsyncPipe.run]: the log worker of a pipe                            *)
(* ===================================================================== *)

(** [run] returns the async generator [wrapped_run()].  The event loop is
    cooperative, so the code between two suspension points runs atomically;
    the model has one transition for each such piece, and a schedule is the
    order in which the event loop runs them.  The pipe object is shared by
    every call of [run] on it: [self.log_queue] and [self.log_worker_task]
    are attributes of the pipe, not of the call. *)
Module AsyncPipe.
Import Py.

Abbreviation TaskId := nat.
Abbreviation CallId := nat.

(** [(run_id, key, value)] *)
Definition LogEvent : Type := N * string * string.

Inductive task_state : Type :=
| Pending                 (* created and not finished: [done()] is false *)
| Cancelled.              (* finished by [cancel()] *)

(** The generator object of one call of [run]. *)
Inductive generator : Type :=
| Created                       (* returned by [run], not yet iterated *)
| Suspended (task : TaskId)     (* inside [try], remembering the task this
                                   call created with [asyncio.create_task] *)
| Closed (task : option TaskId).

Record world : Type := {
  log_queue : list LogEvent;            (* [self.log_queue] *)
  log_worker_task : option TaskId;      (* [self.log_worker_task] *)
  max_log_queue_size : nat;             (* [self.config.max_log_queue_size] *)
  tasks : list task_state;              (* tasks of the event loop, by id *)
  calls : gmap CallId generator;        (* generators returned by [run] *)
  persisted : list LogEvent             (* what [logging_provider.log] got *)
}.

Definition done (w : world) (t : TaskId) : bool :=
  match tasks w !! t with
  | Some Pending => false
  | _ => true
  end.

(** How the iteration of a generator ends: [_run_logic] is exhausted, it
    raises, or the consumer abandons the generator ([aclose()] throws
    [GeneratorExit] at the [yield]).  All three leave through [finally]. *)
Inductive ending : Type :=
| Completed
| CoreRaised (e : exn)
| Abandoned.

Inductive step : Type :=
| Call (c : CallId)                 (* [run(...)]: makes the generator *)
| Start (c : CallId)                (* first [__anext__()]: up to [try] *)
| EnqueueLog (ev : LogEvent)        (* [enqueue_log] from the core logic *)
| Worker (t : TaskId)               (* one round of [log_worker] in task t *)
| Finish (c : CallId) (how : ending). (* the [finally] block *)

(** [self.log_worker_task = asyncio.create_task(self.log_worker(), ...)] *)
Definition start (c : CallId) (w : world) : world :=
  match calls w !! c with
  | Some Created =>
      let t := length (tasks w) in
      {| log_queue := log_queue w;
         log_worker_task := Some t;
         max_log_queue_size := max_log_queue_size w;
         tasks := tasks w ++ [Pending];
         calls := <[c := Suspended t]> (calls w);
         persisted := persisted w |}
  | _ => w
  end.

(** [if self.log_queue.qsize() < max_log_queue_size: put(...)] *)
Definition enqueue_log (ev : LogEvent) (w : world) : world :=
  if (length (log_queue w) <? max_log_queue_size w)%nat then
    {| log_queue := log_queue w ++ [ev];
       log_worker_task := log_worker_task w;
       max_log_queue_size := max_log_queue_size w;
       tasks := tasks w;
       calls := calls w;
       persisted := persisted w |}
  else w.

(** One round of the [while True] of [log_worker]: take an event, log it. *)
Definition worker (t : TaskId) (w : world) : world :=
  match tasks w !! t, log_queue w with
  | Some Pending, ev :: q =>
      {| log_queue := q;
         log_worker_task := log_worker_task w;
         max_log_queue_size := max_log_queue_size w;
         tasks := tasks w;
         calls := calls w;
         persisted := persisted w ++ [ev] |}
  | _, _ => w
  end.

(** The [finally] block: empty the queue ([get] on a non-empty queue does not
    suspend), then cancel and await [self.log_worker_task] when it is set and
    not done. *)
Definition finally (w : world) : list LogEvent * list task_state :=
  (@nil LogEvent,
   match log_worker_task w with
   | Some t => if done w t then tasks w else <[t := Cancelled]> (tasks w)
   | None => tasks w
   end).

Definition finish (c : CallId) (w : world) : world :=
  match calls w !! c with
  | Some (Suspended t) =>
      let '(q, ts) := finally w in
      {| log_queue := q;
         log_worker_task := log_worker_task w;
         max_log_queue_size := max_log_queue_size w;
         tasks := ts;
         calls := <[c := Closed (Some t)]> (calls w);
         persisted := persisted w |}
  | Some Created =>
      (* closed before the first [__anext__()]: the body never ran *)
      {| log_queue := log_queue w;
         log_worker_task := log_worker_task w;
         max_log_queue_size := max_log_queue_size w;
         tasks := tasks w;
         calls := <[c := Closed None]> (calls w);
         persisted := persisted w |}
  | _ => w
  end.

Definition call (c : CallId) (w : world) : world :=
  match calls w !! c with
  | None =>
      {| log_queue := log_queue w;
         log_worker_task := log_worker_task w;
         max_log_queue_size := max_log_queue_size w;
         tasks := tasks w;
         calls := <[c := Created]> (calls w);
         persisted := persisted w |}
  | Some _ => w
  end.

Definition exec (s : step) (w : world) : world :=
  match s with
  | Call c => call c w
  | Start c => start c w
  | EnqueueLog ev => enqueue_log ev w
  | Worker t => worker t w
  | Finish c _ => finish c w
  end.

Definition run_schedule (sched : list step) (w : world) : world :=
  fold_left (fun w s => exec s w) sched w.

(** A freshly constructed pipe: [__init__] sets an empty queue and
    [self.log_worker_task = None]. *)
Definition init (max_size : nat) : world :=
  {| log_queue := []; log_worker_task := None; max_log_queue_size := max_size;
     tasks := []; calls := ∅; persisted := [] |}.

(** The log worker created by call [c] is still active. *)
Definition worker_active (c : CallId) (w : world) : bool :=
  match calls w !! c with
  | Some (Suspended t) | Some (Closed (Some t)) => negb (done w t)
  | _ => false
  end.

Definition closed (c : CallId) (w : world) : bool :=
  match calls w !! c with
  | Some (Closed _) => true
  | _ => false
  end.

(** Steps that belong to no other call's start or end: the core logic
    enqueueing an event, a log worker taking one. *)
Definition quiet (s : step) : bool :=
  match s with
  | EnqueueLog _ | Worker _ => true
  | _ => false
  end.

(** The events that the core logic offers to [enqueue_log] in a schedule. *)
Definition offered (sched : list step) : list LogEvent :=
  flat_map (fun s => match s with EnqueueLog ev => [ev] | _ => [] end) sched.

(** The offered events that find the queue below its bound at the moment
    they are offered. *)
Fixpoint admitted (sched : list step) (w : world) : list LogEvent :=
  match sched with
  | [] => []
  | s :: rest =>
      match s with
      | EnqueueLog ev =>
          if (length (log_queue w) <? max_log_queue_size w)%nat
          then ev :: admitted rest (exec s w)
          else admitted rest (exec s w)
      | _ => admitted rest (exec s w)
      end
  end.

(** Two overlapping iterations of [run] on one pipe. *)
Definition overlapping : list step :=
  [Call 1%nat; Call 2%nat; Start 1%nat; Start 2%nat;
   Finish 1%nat Completed; Finish 2%nat Completed].

End AsyncPipe.

(* ===================================================================== *)
(** * [PostgresDocumentHandler]                                            *)
(* ===================================================================== *)

Module DocStore.
Import Py.

(** One row of [document_info], column for column as in [create_tables].
    Identifiers are 128-bit UUIDs, timestamps are instants on a line; the
    columns hold values (the handler never writes NULL). *)
Record Row : Type := {
  document_id : N;
  collection_ids : list N;
  user_id : N;
  document_type : string;          (* column [type] *)
  metadata : string;               (* JSONB, as text *)
  title : string;
  version : string;
  size_in_bytes : Z;
  ingestion_status : string;
  kg_extraction_status : string;
  created_at : Z;
  updated_at : Z;
  ingestion_attempt_number : Z
}.

(** The relation, keyed by its primary key. *)
Abbreviation Table := (gmap N Row).

(** A sequential scan (its order is the relation's business). *)
Definition scan (t : Table) : list Row := map snd (map_to_list t).

(* --------------------------------------------------------------------- *)
(** ** [upsert_documents_overview]                                         *)
(* --------------------------------------------------------------------- *)

(** Lines 82-103: the attempt number written by an update. *)
Definition new_attempt_number (db_version : Z) (db_status : string)
    (db_entry : Row) : Z :=
  let new_version := ingestion_attempt_number db_entry in
  if (negb (String.eqb db_status "success")
      && String.eqb (ingestion_status db_entry) "success")
     || (db_version <? new_version)
  then db_version + 1
  else db_version.

(** The transaction of one attempt, when it commits: [SELECT ... FOR UPDATE],
    then [UPDATE] (every column but [document_id] and [created_at]) or
    [INSERT].  [db_entry] is [document_info.convert_to_db_entry()]. *)
Definition transaction (db_entry : Row) (t : Table) : Table :=
  match t !! document_id db_entry with
  | Some existing_doc =>
      let db_version := ingestion_attempt_number existing_doc in
      let db_status := ingestion_status existing_doc in
      <[document_id db_entry :=
          {| document_id := document_id existing_doc;
             collection_ids := collection_ids db_entry;
             user_id := user_id db_entry;
             document_type := document_type db_entry;
             metadata := metadata db_entry;
             title := title db_entry;
             version := version db_entry;
             size_in_bytes := size_in_bytes db_entry;
             ingestion_status := ingestion_status db_entry;
             kg_extraction_status := kg_extraction_status db_entry;
             created_at := created_at existing_doc;
             updated_at := updated_at db_entry;
             ingestion_attempt_number :=
               new_attempt_number db_version db_status db_entry |}]> t
  | None => <[document_id db_entry := db_entry]> t
  end.

(** What the backing store answers to one attempt: the transaction commits,
    or a statement raises and the transaction is rolled back. *)
Inductive verdict : Type :=
| Commit
| Abort (e : exn).

(** The table, the pauses taken so far ([asyncio.sleep], in seconds, oldest
    first) and the answers the store will give to the coming attempts (it
    commits once the list is used up). *)
Record Store : Type := {
  table : Table;
  slept : list Q;
  verdicts : list verdict
}.

Definition max_retries : nat := 20.

(** [wait_time = 0.1 * (2**retries)] *)
Definition wait_time (retries : nat) : Q :=
  (1 # 10) * inject_Z (2 ^ Z.of_nat retries).

(** [except (UniqueViolationError, DeadlockDetectedError)] *)
Definition is_conflict (e : exn) : bool :=
  match e with
  | UniqueViolationError | DeadlockDetectedError => true
  | _ => false
  end.

Definition next_verdict (st : Store) : verdict * list verdict :=
  match verdicts st with
  | [] => (Commit, [])
  | v :: vs => (v, vs)
  end.

(** [while retries < max_retries: try ... except ...] for one document; the
    loop runs at most [max_retries] times, which is the fuel. *)
Fixpoint retry_loop (fuel : nat) (retries : nat) (db_entry : Row) (st : Store)
  : Store * result unit :=
  match fuel with
  | O => (st, Ok tt)
  | S fuel' =>
      if negb (retries <? max_retries)%nat then (st, Ok tt)
      else
        let '(v, vs) := next_verdict st in
        match v with
        | Commit =>
            ({| table := transaction db_entry (table st);
                slept := slept st; verdicts := vs |}, Ok tt)   (* break *)
        | Abort e =>
            if is_conflict e then
              let retries := S retries in
              if (retries =? max_retries)%nat then
                ({| table := table st; slept := slept st; verdicts := vs |},
                 Raise e)
              else
                retry_loop fuel' retries db_entry
                  {| table := table st;
                     slept := slept st ++ [wait_time retries];
                     verdicts := vs |}
            else
              ({| table := table st; slept := slept st; verdicts := vs |},
               Raise e)
        end
  end.

(** [for document_info in documents_overview: ...]; an exception leaves the
    loop and the function. *)
Fixpoint upsert_documents_overview (documents_overview : list Row) (st : Store)
  : Store * result unit :=
  match documents_overview with
  | [] => (st, Ok tt)
  | db_entry :: rest =>
      match retry_loop max_retries 0 db_entry st with
      | (st', Ok _) => upsert_documents_overview rest st'
      | (st', Raise e) => (st', Raise e)
      end
  end.

(** Successive calls of [upsert_documents_overview], one batch each; a call
    that raises ends, the later calls still happen. *)
Definition upsert_calls (batches : list (list Row)) (st : Store) : Store :=
  fold_left (fun st batch => fst (upsert_documents_overview batch st))
    batches st.

(** The condition under which an update writes the stored number plus one. *)
Definition increments (stored db_entry : Row) : Prop :=
  (ingestion_status stored <> "success"
   /\ ingestion_status db_entry = "success")
  \/ ingestion_attempt_number stored < ingestion_attempt_number db_entry.

(** Every stored row is still stored, with an attempt number at least as
    large. *)
Definition attempts_le (t t' : Table) : Prop :=
  forall d r, t !! d = Some r ->
    exists r', t' !! d = Some r'
      /\ ingestion_attempt_number r <= ingestion_attempt_number r'.

(* --------------------------------------------------------------------- *)
(** ** [delete_from_documents_overview]                                    *)
(* --------------------------------------------------------------------- *)

(** [if version:] for an [Optional[str]]. *)
Definition version_given (version : option string) : bool :=
  match version with
  | None => false
  | Some v => negb (String.eqb v "")
  end.

(** [DELETE FROM document_info WHERE document_id = $1], with
    [AND version = $2] appended when [version] is truthy. *)
Definition delete_from_documents_overview (id : N) (version : option string)
    (t : Table) : Table :=
  if version_given version then
    match t !! id with
    | Some r =>
        if String.eqb (DocStore.version r) (default "" version)
        then delete id t else t
    | None => t
    end
  else delete id t.

(* --------------------------------------------------------------------- *)
(** ** SQL values and conditions                                           *)
(* --------------------------------------------------------------------- *)

Inductive sqlval : Type :=
| SText (s : string)
| SInt (z : Z)
| SUuid (u : N)
| SUuidArray (us : list N)
| STimestamp (z : Z).

(** The columns of the relation by name. *)
Definition column (name : string) : option (Row -> sqlval) :=
  if String.eqb name "document_id" then Some (fun r => SUuid (document_id r))
  else if String.eqb name "collection_ids"
    then Some (fun r => SUuidArray (collection_ids r))
  else if String.eqb name "user_id" then Some (fun r => SUuid (user_id r))
  else if String.eqb name "type" then Some (fun r => SText (document_type r))
  else if String.eqb name "metadata" then Some (fun r => SText (metadata r))
  else if String.eqb name "title" then Some (fun r => SText (title r))
  else if String.eqb name "version" then Some (fun r => SText (version r))
  else if String.eqb name "size_in_bytes"
    then Some (fun r => SInt (size_in_bytes r))
  else if String.eqb name "ingestion_status"
    then Some (fun r => SText (ingestion_status r))
  else if String.eqb name "kg_extraction_status"
    then Some (fun r => SText (kg_extraction_status r))
  else if String.eqb name "created_at"
    then Some (fun r => STimestamp (created_at r))
  else if String.eqb name "updated_at"
    then Some (fun r => STimestamp (updated_at r))
  else if String.eqb name "ingestion_attempt_number"
    then Some (fun r => SInt (ingestion_attempt_number r))
  else None.

(** SQL's three truth values; [WHERE] keeps the rows whose condition is
    [TTrue]. *)
Inductive tri : Type := TTrue | TFalse | TNull.

Definition tri_and (a b : tri) : tri :=
  match a, b with
  | TFalse, _ | _, TFalse => TFalse
  | TTrue, TTrue => TTrue
  | _, _ => TNull
  end.

Definition is_true (a : tri) : bool :=
  match a with TTrue => true | _ => false end.

Definition of_bool (b : bool) : tri := if b then TTrue else TFalse.

(** [x = ANY(arr)] for a text [x]. *)
Definition text_eq_any (x : string) (arr : list string) : tri :=
  of_bool (existsb (String.eqb x) arr).

(** [x = ANY(arr)] for a uuid parameter [x] that may be NULL (Python [None]):
    NULL against a non-empty array is NULL. *)
Definition uuid_eq_any (x : option N) (arr : list N) : tri :=
  match x with
  | Some u => of_bool (existsb (N.eqb u) arr)
  | None => match arr with [] => TFalse | _ => TNull end
  end.

(** [a && b] on arrays: they share an element. *)
Definition overlap (a b : list N) : bool :=
  existsb (fun x => existsb (N.eqb x) b) a.

(* --------------------------------------------------------------------- *)
(** ** Workflow status                                                     *)
(* --------------------------------------------------------------------- *)

(** A status enumeration of [core.base]: its name, [table_name()],
    [id_column()] and the values of its members in definition order.  The
    classes are declared in [core.base]; the handler is embedded over any
    such declarations. *)
Record StatusModel : Type := {
  model_name : string;
  table_name : string;
  id_column : string;
  members : list string
}.

Record Enums : Type := {
  IngestionStatus : StatusModel;
  KGExtractionStatus : StatusModel;
  KGEnrichmentStatus : StatusModel;
  DocumentType : list string
}.

(** The Python objects [get_workflow_status] handles. *)
Inductive obj : Type :=
| OStr (s : string)
| ORecord (fields : list (string * sqlval))    (* an [asyncpg.Record] *)
| OList (items : list obj)
| OEnumClass (m : StatusModel)
| OMember (cls : string) (value : string).

(** [f(arg)]: of these objects only an enumeration class is callable, and
    calling it looks a member up by value. *)
Definition py_call (f : obj) (arg : obj) : result obj :=
  match f with
  | OEnumClass m =>
      match arg with
      | OStr v =>
          if existsb (String.eqb v) (members m)
          then Ok (OMember (model_name m) v)
          else Raise (ValueError ("not a valid " +:+ model_name m))
      | OMember cls v =>
          if String.eqb cls (model_name m) then Ok arg
          else Raise (ValueError ("not a valid " +:+ model_name m))
      | _ => Raise (ValueError ("not a valid " +:+ model_name m))
      end
  | OList _ => Raise (TypeError "'list' object is not callable")
  | ORecord _ => Raise (TypeError "'Record' object is not callable")
  | OStr _ => Raise (TypeError "'str' object is not callable")
  | OMember cls _ => Raise (TypeError ("'" +:+ cls +:+ "' object is not callable"))
  end.

(** [iter(x)]: a list gives its items, an enumeration class its members. *)
Definition py_iter (x : obj) : result (list obj) :=
  match x with
  | OList items => Ok items
  | OEnumClass m => Ok (map (OMember (model_name m)) (members m))
  | ORecord fields => Ok (map (fun kv => OStr (fst kv)) fields)
  | OStr s => Ok (map (fun c => OStr (String c EmptyString))
                    (list_ascii_of_string s))
  | OMember cls _ => Raise (TypeError ("'" +:+ cls +:+ "' object is not iterable"))
  end.

(** [list(map(f, xs))]: [f] applied to each element of [xs] in turn. *)
Definition list_map (f xs : obj) : result (list obj) :=
  items ← py_iter xs; traverse (py_call f) items.

(** [result[0]] *)
Definition first (l : list obj) : result obj :=
  match l with
  | x :: _ => Ok x
  | [] => Raise (IndexError "list index out of range")
  end.

Section Handler.
Context (enums : Enums).

(** The relations of the project's schema by name. *)
Context (relations : gmap string Table).

Definition _get_status_model (status_type : string) : result StatusModel :=
  if String.eqb status_type "ingestion" then Ok (IngestionStatus enums)
  else if String.eqb status_type "kg_extraction_status"
    then Ok (KGExtractionStatus enums)
  else if String.eqb status_type "kg_enrichment_status"
    then Ok (KGEnrichmentStatus enums)
  else Raise (R2RException 400 ("Invalid status type: " +:+ status_type)).

(** [SELECT {status_type} FROM {table} WHERE {column_name} = ANY($1)] *)
Definition _get_status_from_table (ids : list N) (table_name : string)
    (status_type : string) (column_name : string)
  : result (list (list (string * sqlval))) :=
  match relations !! table_name with
  | None => Raise (PostgresError "relation does not exist")
  | Some t =>
      match column status_type, column column_name with
      | Some sel, Some key =>
          Ok (map (fun r => [(status_type, sel r)])
                (List.filter
                   (fun r =>
                      match key r with
                      | SUuid u => is_true (uuid_eq_any (Some u) ids)
                      | _ => false
                      end)
                   (scan t)))
      | _, _ => Raise (PostgresError "column does not exist")
      end
  end.

(** [SELECT document_id FROM {table}
     WHERE {status_type} = ANY($1) and $2 = ANY(collection_ids)] *)
Definition _get_ids_from_table (status : list string) (table_name : string)
    (status_type : string) (collection_id : option N) : result (list N) :=
  match relations !! table_name with
  | None => Raise (PostgresError "relation does not exist")
  | Some t =>
      match column status_type with
      | Some col =>
          let records :=
            List.filter
              (fun r =>
                 is_true
                   (tri_and
                      (match col r with
                       | SText s => text_eq_any s status
                       | _ => TFalse
                       end)
                      (uuid_eq_any collection_id (collection_ids r))))
              (scan t) in
          Ok (map document_id records)
      | None => Raise (PostgresError "column does not exist")
      end
  end.

(** [id] is one UUID ([inl]) or a list of them ([inr]). *)
Definition get_workflow_status (id : N + list N) (status_type : string)
  : result obj :=
  let ids := match id with inl u => [u] | inr l => l end in
  out_model ← _get_status_model status_type;
  records ← _get_status_from_table ids (table_name out_model) status_type
              (id_column out_model);
  result ← list_map (OList (map ORecord records)) (OEnumClass out_model);
  match id with
  | inl _ => first result
  | inr _ => Ok (OList result)
  end.

(** [status] is one string ([inl]) or a list of them ([inr]). *)
Definition get_document_ids_by_status (status_type : string)
    (status : string + list string) (collection_id : option N)
  : result (list N) :=
  let status := match status with inl s => [s] | inr l => l end in
  out_model ← _get_status_model status_type;
  _get_ids_from_table status (table_name out_model) status_type
    collection_id.

(** [SET {name} = $1] for a text parameter: the text columns take it as it
    is, the JSONB column takes a text that is JSON; a column of another type
    does not take a status text. *)
Definition set_text_column (name : string) (v : string)
  : option (Row -> Row) :=
  let upd (f : Row -> Row) := Some f in
  if String.eqb name "type" then
    upd (fun r =>
      {| document_id := document_id r; collection_ids := collection_ids r;
         user_id := user_id r; document_type := v; metadata := metadata r;
         title := title r; version := version r;
         size_in_bytes := size_in_bytes r;
         ingestion_status := ingestion_status r;
         kg_extraction_status := kg_extraction_status r;
         created_at := created_at r; updated_at := updated_at r;
         ingestion_attempt_number := ingestion_attempt_number r |})
  else if String.eqb name "metadata" then
    match Json.json_loads (Json.unlimited v) v with
    | Ok _ =>
        upd (fun r =>
          {| document_id := document_id r; collection_ids := collection_ids r;
             user_id := user_id r; document_type := document_type r;
             metadata := v; title := title r; version := version r;
             size_in_bytes := size_in_bytes r;
             ingestion_status := ingestion_status r;
             kg_extraction_status := kg_extraction_status r;
             created_at := created_at r; updated_at := updated_at r;
             ingestion_attempt_number := ingestion_attempt_number r |})
    | Raise _ => None
    end
  else if String.eqb name "title" then
    upd (fun r =>
      {| document_id := document_id r; collection_ids := collection_ids r;
         user_id := user_id r; document_type := document_type r;
         metadata := metadata r; title := v; version := version r;
         size_in_bytes := size_in_bytes r;
         ingestion_status := ingestion_status r;
         kg_extraction_status := kg_extraction_status r;
         created_at := created_at r; updated_at := updated_at r;
         ingestion_attempt_number := ingestion_attempt_number r |})
  else if String.eqb name "version" then
    upd (fun r =>
      {| document_id := document_id r; collection_ids := collection_ids r;
         user_id := user_id r; document_type := document_type r;
         metadata := metadata r; title := title r; version := v;
         size_in_bytes := size_in_bytes r;
         ingestion_status := ingestion_status r;
         kg_extraction_status := kg_extraction_status r;
         created_at := created_at r; updated_at := updated_at r;
         ingestion_attempt_number := ingestion_attempt_number r |})
  else if String.eqb name "ingestion_status" then
    upd (fun r =>
      {| document_id := document_id r; collection_ids := collection_ids r;
         user_id := user_id r; document_type := document_type r;
         metadata := metadata r; title := title r; version := version r;
         size_in_bytes := size_in_bytes r;
         ingestion_status := v;
         kg_extraction_status := kg_extraction_status r;
         created_at := created_at r; updated_at := updated_at r;
         ingestion_attempt_number := ingestion_attempt_number r |})
  else if String.eqb name "kg_extraction_status" then
    upd (fun r =>
      {| document_id := document_id r; collection_ids := collection_ids r;
         user_id := user_id r; document_type := document_type r;
         metadata := metadata r; title := title r; version := version r;
         size_in_bytes := size_in_bytes r;
         ingestion_status := ingestion_status r;
         kg_extraction_status := v;
         created_at := created_at r; updated_at := updated_at r;
         ingestion_attempt_number := ingestion_attempt_number r |})
  else None.

(** The rows that [WHERE {column_name} = ANY($ids)] selects. *)
Definition selected (column_name : string) (ids : list N) (r : Row) : bool :=
  match column column_name with
  | Some key =>
      match key r with
      | SUuid u => is_true (uuid_eq_any (Some u) ids)
      | _ => false
      end
  | None => false
  end.

(** [UPDATE {table} SET {status_type} = $1 WHERE {column_name} = Any($2)];
    the result is the relations after the statement. *)
Definition _set_status_in_table (ids : list N) (status : string)
    (table_name : string) (status_type : string) (column_name : string)
  : result (gmap string Table) :=
  match relations !! table_name with
  | None => Raise (PostgresError "relation does not exist")
  | Some t =>
      match set_text_column status_type status, column column_name with
      | Some set, Some _ =>
          Ok (<[table_name :=
                  (fun r => if selected column_name ids r then set r else r)
                    <$> t]> relations)
      | _, _ => Raise (PostgresError "column does not exist")
      end
  end.

(** [id] is one UUID ([inl]) or a list of them ([inr]). *)
Definition set_workflow_status (id : N + list N) (status_type : string)
    (status : string) : result (gmap string Table) :=
  let ids := match id with inl u => [u] | inr l => l end in
  out_model ← _get_status_model status_type;
  _set_status_in_table ids status (table_name out_model) status_type
    (id_column out_model).

End Handler.

(* --------------------------------------------------------------------- *)
(** ** [get_documents_overview]                                            *)
(* --------------------------------------------------------------------- *)

(** The [DocumentInfo] built from a row. *)
Record DocumentInfo : Type := {
  di_id : N;
  di_collection_ids : list N;
  di_user_id : N;
  di_document_type : string;
  di_metadata : pyval;
  di_title : string;
  di_version : string;
  di_size_in_bytes : Z;
  di_ingestion_status : string;
  di_kg_extraction_status : string;
  di_created_at : Z;
  di_updated_at : Z
}.

(** [if filter:] for an [Optional[list[UUID]]]. *)
Definition given (f : option (list N)) : bool :=
  match f with
  | Some (_ :: _) => true
  | _ => false
  end.

(** The conjunction of the conditions that were appended. *)
Definition matches (filter_user_ids filter_document_ids
    filter_collection_ids : option (list N)) (r : Row) : bool :=
  (if given filter_document_ids
   then existsb (N.eqb (document_id r)) (default [] filter_document_ids)
   else true)
  && (if given filter_user_ids
      then existsb (N.eqb (user_id r)) (default [] filter_user_ids)
      else true)
  && (if given filter_collection_ids
      then overlap (collection_ids r) (default [] filter_collection_ids)
      else true).

(** What the filters ask of a row, in words: for each filter that is given
    with at least one id, the row's document id is among the document ids,
    its user id among the user ids, and one of its collections among the
    collection ids. *)
Definition selects (filter_user_ids filter_document_ids
    filter_collection_ids : option (list N)) (r : Row) : Prop :=
  (forall ids, filter_document_ids = Some ids -> ids <> [] ->
     In (document_id r) ids)
  /\ (forall ids, filter_user_ids = Some ids -> ids <> [] ->
       In (user_id r) ids)
  /\ (forall ids, filter_collection_ids = Some ids -> ids <> [] ->
       exists c, In c (collection_ids r) /\ In c ids).

(** [ORDER BY created_at DESC] (rows created at the same instant keep the
    order of the scan). *)
Definition newer (y x : Row) : bool := created_at x <? created_at y.
Definition order_by_created_at_desc (rows : list Row) : list Row :=
  Desc.sort newer rows.

(** [OFFSET $n] and, unless [limit] is -1, [LIMIT $m]. *)
Definition page (offset limit : Z) (rows : list Row) : result (list Row) :=
  if offset <? 0 then Raise (PostgresError "OFFSET must not be negative")
  else
    let rest := drop (Z.to_nat offset) rows in
    if limit =? -1 then Ok rest
    else if limit <? 0 then Raise (PostgresError "LIMIT must not be negative")
    else Ok (take (Z.to_nat limit) rest).

(** The page that OFFSET and LIMIT cut out of the ordered rows. *)
Definition page_of (offset limit : Z) (ordered : list Row) : list Row :=
  if limit =? -1 then drop (Z.to_nat offset) ordered
  else take (Z.to_nat limit) (drop (Z.to_nat offset) ordered).

(** The query: every returned row carries [COUNT( * ) OVER()], the number of
    rows that match, counted before OFFSET and LIMIT apply. *)
Definition overview_query (filter_user_ids filter_document_ids
    filter_collection_ids : option (list N)) (offset limit : Z) (t : Table)
  : result (list (Row * Z)) :=
  let matching :=
    List.filter
      (matches filter_user_ids filter_document_ids filter_collection_ids)
      (scan t) in
  let total_entries := Z.of_nat (length matching) in
  rows ← page offset limit (order_by_created_at_desc matching);
  Ok (map (fun r => (r, total_entries)) rows).

(** [EnumClass(value)] *)
Definition enum_value (name : string) (members : list string) (v : string)
  : result string :=
  if existsb (String.eqb v) members then Ok v
  else Raise (ValueError ("not a valid " +:+ name)).

Definition to_document_info (enums : Enums) (lim : Json.Limits) (row : Row)
  : result DocumentInfo :=
  ty ← enum_value "DocumentType" (DocumentType enums) (document_type row);
  md ← Json.json_loads lim (metadata row);
  ing ← enum_value "IngestionStatus" (members (IngestionStatus enums))
          (ingestion_status row);
  kg ← enum_value "KGExtractionStatus" (members (KGExtractionStatus enums))
         (kg_extraction_status row);
  Ok {| di_id := document_id row;
        di_collection_ids := collection_ids row;
        di_user_id := user_id row;
        di_document_type := ty;
        di_metadata := md;
        di_title := title row;
        di_version := version row;
        di_size_in_bytes := size_in_bytes row;
        di_ingestion_status := ing;
        di_kg_extraction_status := kg;
        di_created_at := created_at row;
        di_updated_at := updated_at row |}.

(** Returns [(results, total_entries)]; any exception of the [try] block
    becomes [R2RException(500)].  [lim] are the limits of the interpreter
    that [json.loads] runs under. *)
Definition get_documents_overview (enums : Enums) (lim : Json.Limits)
    (filter_user_ids filter_document_ids filter_collection_ids
       : option (list N))
    (offset limit : Z) (t : Table) : result (list DocumentInfo * Z) :=
  match
    (results ← overview_query filter_user_ids filter_document_ids
                 filter_collection_ids offset limit t;
     let total_entries :=
       match results with
       | (_, n) :: _ => n
       | [] => 0
       end in
     documents ← traverse (to_document_info enums lim) (map fst results);
     Ok (documents, total_entries))
  with
  | Ok r => Ok r
  | Raise _ => Raise (R2RException 500 "Database query failed")
  end.

(** Every row is stored under its own [document_id], the primary key. *)
Definition keyed_by_id (t : Table) : Prop :=
  forall k r, t !! k = Some r -> document_id r = k.

(** What [get_documents_overview] raises for any failure of its query. *)
Definition failed : exn := R2RException 500 "Database query failed".

(** The sum of pauses, in seconds. *)
Definition total (pauses : list Q) : Q := fold_right Qplus 0%Q pauses.

End DocStore.

(* ===================================================================== *)
(** * [KGSearchSearchPipe._run_logic] and [local_search]                   *)
(* ===================================================================== *)

(** An async generator is what it yields, in order, and the exception that
    ends it, if one does.  The embedding and the vector index are the
    collaborators of the pipe; the pipe is embedded over any of them.  The
    result classes of [core.base.abstractions] are taken as plain records
    (their field validation is declared there, not here). *)
Module KGLocal.
Import Py.

Definition stream (A : Type) : Type := list A * option exn.

(** The generator that yields [s1], then (unless [s1] raised) [s2]. *)
Definition then_ {A} (s1 s2 : stream A) : stream A :=
  match snd s1 with
  | Some e => s1
  | None => (fst s1 ++ fst s2, snd s2)
  end.

Inductive KGSearchMethod : Type := LOCAL.
Inductive KGSearchResultType : Type := ENTITY | RELATIONSHIP | COMMUNITY.

Inductive KGContent : Type :=
| KGEntityResult (name description : pyval)
| KGCommunityResult (name summary rating rating_explanation findings : pyval).

Record KGSearchResult : Type := {
  content : KGContent;
  method : KGSearchMethod;
  result_type : KGSearchResultType;
  extraction_ids : option pyval;
  metadata : list (string * pyval)
}.

Record KGSearchSettings : Type := {
  kg_search_type : string;
  local_search_limits : list (string * pyval);
  filters : pyval;
  entities_level : pyval
}.

(** The arguments of one [vector_query] call. *)
Record VectorQuery (E : Type) : Type := {
  vq_message : string;
  vq_search_type : string;
  vq_search_type_limits : pyval;
  vq_embedding_type : option string;
  vq_query_embedding : E;
  vq_property_names : list string;
  vq_filters : pyval;
  vq_entities_level : option pyval
}.
Arguments vq_message {E}.
Arguments vq_search_type {E}.
Arguments vq_search_type_limits {E}.
Arguments vq_embedding_type {E}.
Arguments vq_query_embedding {E}.
Arguments vq_property_names {E}.
Arguments vq_filters {E}.
Arguments vq_entities_level {E}.

(** [d[k]] on a search result or on the limits. *)
Definition lookup_key (d : list (string * pyval)) (k : string) : result pyval :=
  match dict_get k d with
  | Some v => Ok v
  | None => Raise (KeyError k)
  end.

Section Pipe.
Context {E : Type}.
Context (async_get_embedding : string -> result E).
Context (vector_query :
           VectorQuery E -> result (stream (list (string * pyval)))).

(** The body of the first [async for]: one entity hit to one result. *)
Definition entity_result (message : string)
    (search_result : list (string * pyval)) : result KGSearchResult :=
  name ← lookup_key search_result "name";
  description ← lookup_key search_result "description";
  ids ← lookup_key search_result "extraction_ids";
  Ok {| content := KGEntityResult name description;
        method := LOCAL;
        result_type := ENTITY;
        extraction_ids := Some ids;
        metadata := [("associated_query", PStr message)] |}.

(** The body of the second [async for]: one community hit to one result. *)
Definition community_result (message : string)
    (search_result : list (string * pyval)) : result KGSearchResult :=
  name ← lookup_key search_result "name";
  summary ← lookup_key search_result "summary";
  rating ← lookup_key search_result "rating";
  rating_explanation ← lookup_key search_result "rating_explanation";
  findings ← lookup_key search_result "findings";
  Ok {| content :=
          KGCommunityResult name summary rating rating_explanation findings;
        method := LOCAL;
        result_type := COMMUNITY;
        extraction_ids := None;
        metadata := [("associated_query", PStr message)] |}.

(** [async for x in hits: yield f(x)]: the results up to the first hit that
    [f] fails on, or up to the exception that ends [hits]. *)
Fixpoint yield_each {A B} (f : A -> result B) (hits : list A)
    (ending : option exn) : stream B :=
  match hits with
  | [] => ([], ending)
  | x :: rest =>
      match f x with
      | Ok y => let '(ys, e) := yield_each f rest ending in (y :: ys, e)
      | Raise e => ([], Some e)
      end
  end.

(** [async for x in await vector_query(...): yield f(x)] *)
Definition query_and_yield (q : result (VectorQuery E))
    (f : list (string * pyval) -> result KGSearchResult)
  : stream KGSearchResult :=
  match q with
  | Raise e => ([], Some e)
  | Ok q =>
      match vector_query q with
      | Raise e => ([], Some e)
      | Ok (hits, ending) => yield_each f hits ending
      end
  end.

(** The body of [async for message in input.message]. *)
Definition search_message (kg_search_settings : KGSearchSettings)
    (message : string) : stream KGSearchResult :=
  match async_get_embedding message with
  | Raise e => ([], Some e)
  | Ok query_embedding =>
      then_
        (query_and_yield
           (limits ← lookup_key (local_search_limits kg_search_settings)
                       "__Entity__";
            Ok {| vq_message := message;
                  vq_search_type := "__Entity__";
                  vq_search_type_limits := limits;
                  vq_embedding_type := None;
                  vq_query_embedding := query_embedding;
                  vq_property_names :=
                    ["name"; "description"; "extraction_ids"];
                  vq_filters := filters kg_search_settings;
                  vq_entities_level :=
                    Some (entities_level kg_search_settings) |})
           (entity_result message))
        (query_and_yield
           (limits ← lookup_key (local_search_limits kg_search_settings)
                       "__Community__";
            Ok {| vq_message := message;
                  vq_search_type := "__Community__";
                  vq_search_type_limits := limits;
                  vq_embedding_type := Some "embedding";
                  vq_query_embedding := query_embedding;
                  vq_property_names :=
                    ["community_number"; "name"; "findings"; "rating";
                     "rating_explanation"; "summary"];
                  vq_filters := filters kg_search_settings;
                  vq_entities_level := None |})
           (community_result message))
  end.

(** [local_search]: the messages of [input.message] in turn; [ending] is the
    exception that ends the input, if one does. *)
Fixpoint local_search (messages : list string) (ending : option exn)
    (kg_search_settings : KGSearchSettings) : stream KGSearchResult :=
  match messages with
  | [] => ([], ending)
  | message :: rest =>
      then_ (search_message kg_search_settings message)
        (local_search rest ending kg_search_settings)
  end.

Definition _run_logic (input : stream string)
    (kg_search_settings : KGSearchSettings) : stream KGSearchResult :=
  if String.eqb (kg_search_type kg_search_settings) "local" then
    local_search (fst input) (snd input) kg_search_settings
  else
    ([], Some (ValueError ("Unsupported KG search type: "
                           +:+ kg_search_type kg_search_settings))).

End Pipe.

(** The query that a result was produced for. *)
Definition associated_query (r : KGSearchResult) : option pyval :=
  dict_get "associated_query" (metadata r).

End KGLocal.

(* ===================================================================== *)
(** * Sample data                                                          *)
(* ===================================================================== *)

(** Sample collaborators of the KG search pipe: an embedding provider that is
    down for the message "bad", and an index with one hit per query. *)
Module KGSample.
Import Py KGLocal.

Definition embedding (message : string) : result nat :=
  if String.eqb message "bad" then Raise (PostgresError "provider is down")
  else Ok (String.length message).

Definition index (q : VectorQuery nat)
  : result (stream (list (string * pyval))) :=
  if String.eqb (vq_search_type q) "__Entity__" then
    Ok ([[("name", PStr "e"); ("description", PStr "d");
          ("extraction_ids", PList [])]], None)
  else
    Ok ([[("name", PStr "c"); ("summary", PStr "s");
          ("rating", PNum (Fin 1)); ("rating_explanation", PStr "x");
          ("findings", PList [])]], None).

Definition settings (kind : string) : KGSearchSettings :=
  {| kg_search_type := kind;
     local_search_limits :=
       [("__Entity__", PNum (Fin 2)); ("__Community__", PNum (Fin 1))];
     filters := PDict [];
     entities_level := PStr "document" |}.

End KGSample.

Module Sample.
Import Py DocStore.

Definition doc (id : N) (colls : list N) (status : string) (attempt : Z)
    (created : Z) : Row :=
  {| document_id := id; collection_ids := colls; user_id := 7%N;
     document_type := "txt"; metadata := "{}"; title := "t"; version := "v0";
     size_in_bytes := 10; ingestion_status := status;
     kg_extraction_status := "success"; created_at := created;
     updated_at := created; ingestion_attempt_number := attempt |}.

(** Declarations of the status enumerations, for the sample runs. *)
Definition enums : Enums :=
  {| IngestionStatus :=
       {| model_name := "IngestionStatus"; table_name := "document_info";
          id_column := "document_id";
          members := ["pending"; "parsing"; "success"; "failed"] |};
     KGExtractionStatus :=
       {| model_name := "KGExtractionStatus"; table_name := "document_info";
          id_column := "document_id";
          members := ["pending"; "processing"; "success"; "failed"] |};
     KGEnrichmentStatus :=
       {| model_name := "KGEnrichmentStatus"; table_name := "collections";
          id_column := "collection_id";
          members := ["pending"; "processing"; "success"; "failed"] |};
     DocumentType := ["txt"; "pdf"] |}.

(** The limits of an interpreter with its default settings, called from a
    shallow stack. *)
Definition limits : Json.Limits :=
  {| Json.max_depth := 900; Json.int_max_str_digits := 4300 |}.

Definition one_row : Table := {[ 1%N := doc 1 [5%N] "success" 0 100 ]}.

Definition relations : gmap string Table := {[ "document_info" := one_row ]}.

Definition store (t : Table) (vs : list verdict) : Store :=
  {| table := t; slept := []; verdicts := vs |}.

Definition conflicts (k : nat) : list verdict :=
  repeat (Abort UniqueViolationError) k.

End Sample.

(* ===================================================================== *)
(** * Properties of [AsyncState]                                           *)
(* ===================================================================== *)

Module AsyncStateFacts.
Import Py.

(** [get] never changes the state. *)
Lemma get_state outer_key inner_key default (st : AsyncState.data) :
  fst (AsyncState.get outer_key inner_key default st) = st.
Proof.
  unfold AsyncState.get.
  destruct (st !! outer_key) as [bucket|]; [|reflexivity].
  destruct (bucket !! inner_key); reflexivity.
Qed.

(** C6, as amended: for a present outer key and an absent inner key, [get]
    returns the supplied default when that default is truthy, and a new empty
    dict when it is falsy (no default, [None], [False], zero, an empty string
    or an empty container); it does not raise and leaves the state as it
    was. *)
Theorem get_absent_inner_key
    (st : AsyncState.data) (outer_key inner_key : string)
    (bucket : gmap string pyval) (default : pyval) :
  st !! outer_key = Some bucket ->
  bucket !! inner_key = None ->
  AsyncState.get outer_key inner_key default st
    = (st, Ok (if truthy default then default else PDict []))
  /\ (truthy default = true ->
      snd (AsyncState.get outer_key inner_key default st) = Ok default)
  /\ (default = PNone ->
      snd (AsyncState.get outer_key inner_key default st) = Ok (PDict [])).
Proof.
  intros Houter Hinner.
  assert (E : AsyncState.get outer_key inner_key default st
              = (st, Ok (if truthy default then default else PDict []))).
  { unfold AsyncState.get. rewrite Houter, Hinner. reflexivity. }
  split; [exact E|].
  split.
  - intros Ht. rewrite E, Ht. reflexivity.
  - intros ->. rewrite E. reflexivity.
Qed.

Lemma get_absent_inner_key_witness :
  AsyncState.get "a" "x" (PStr "fallback")
      ({[ "a" := ({[ "y" := PNone ]} : gmap string pyval) ]} : AsyncState.data)
    = ({[ "a" := {[ "y" := PNone ]} ]}, Ok (PStr "fallback")).
Proof.
  exact (proj1 (get_absent_inner_key
                  {[ "a" := ({[ "y" := PNone ]} : gmap string pyval) ]}
                  "a" "x" {[ "y" := PNone ]} (PStr "fallback")
                  eq_refl eq_refl)).
Defined.

(** C6 as stated fails: with the default [0] supplied, [get] on a present
    outer key and an absent inner key returns an empty dict, not [0]. *)
Lemma get_default_zero_not_returned :
  let st : AsyncState.data := {[ "a" := (∅ : gmap string pyval) ]} in
  st !! "a" = Some ∅
  /\ (∅ : gmap string pyval) !! "x" = None
  /\ snd (AsyncState.get "a" "x" (PNum (Fin 0)) st) = Ok (PDict [])
  /\ snd (AsyncState.get "a" "x" (PNum (Fin 0)) st) <> Ok (PNum (Fin 0)).
Proof.
  cbv zeta. split; [reflexivity|]. split; [reflexivity|].
  split; [reflexivity|]. intros H. vm_compute in H. discriminate H.
Qed.

(** C7: when the outer key is absent, [get] raises the [ValueError] that
    reports the missing key and [delete] (with or without an inner key) raises
    [KeyError]; both are NotFound-class errors and the state is unchanged. *)
Theorem absent_outer_key_not_found (st : AsyncState.data) (outer_key : string) :
  st !! outer_key = None ->
  (forall inner_key default,
      AsyncState.get outer_key inner_key default st
        = (st, Raise (AsyncState.missing_outer outer_key)))
  /\ (forall inner_key,
      AsyncState.delete outer_key inner_key st
        = (st, Raise (KeyError outer_key)))
  /\ AsyncState.is_not_found (AsyncState.missing_outer outer_key) = true
  /\ AsyncState.is_not_found (KeyError outer_key) = true.
Proof.
  intros Habsent. repeat split.
  - intros inner_key default. unfold AsyncState.get. rewrite Habsent.
    reflexivity.
  - intros inner_key. unfold AsyncState.delete. rewrite Habsent.
    rewrite bool_decide_eq_false_2 by (intros [? ?]; discriminate).
    reflexivity.
Qed.

Lemma absent_outer_key_not_found_witness :
  AsyncState.get "b" "x" PNone ({[ "a" := ∅ ]} : AsyncState.data)
    = ({[ "a" := ∅ ]}, Raise (ValueError "Key b does not exist in the state."))
  /\ AsyncState.delete "b" None ({[ "a" := ∅ ]} : AsyncState.data)
    = ({[ "a" := ∅ ]}, Raise (KeyError "b"))
  /\ AsyncState.delete "b" (Some "x") ({[ "a" := ∅ ]} : AsyncState.data)
    = ({[ "a" := ∅ ]}, Raise (KeyError "b")).
Proof.
  pose proof (absent_outer_key_not_found
                ({[ "a" := ∅ ]} : AsyncState.data) "b" eq_refl)
    as (Hget & Hdel & _).
  split; [exact (Hget "x" PNone)|].
  split; [exact (Hdel None) | exact (Hdel (Some "x"))].
Defined.

End AsyncStateFacts.

(* ===================================================================== *)
(** * Properties of the document store: upsert and delete                  *)
(* ===================================================================== *)

Module UpsertFacts.
Import Py DocStore.

Lemma new_attempt_number_spec (stored db_entry : Row) :
  let n := new_attempt_number (ingestion_attempt_number stored)
             (ingestion_status stored) db_entry in
  (increments stored db_entry -> n = ingestion_attempt_number stored + 1)
  /\ (~ increments stored db_entry -> n = ingestion_attempt_number stored).
Proof.
  unfold new_attempt_number, increments. cbv zeta.
  destruct (String.eqb_spec (ingestion_status stored) "success") as [Hs|Hs];
    destruct (String.eqb_spec (ingestion_status db_entry) "success") as [He|He];
    destruct (Z.ltb_spec (ingestion_attempt_number stored)
                (ingestion_attempt_number db_entry)) as [Hlt|Hge];
    cbn; split; intros H; try reflexivity; try lia;
    try (exfalso; apply H; auto; fail);
    try (exfalso; destruct H as [[H1 H2]|H]; [congruence|lia]).
Qed.

Lemma new_attempt_number_ge db_version db_status db_entry :
  db_version <= new_attempt_number db_version db_status db_entry.
Proof.
  unfold new_attempt_number.
  destruct (_ || _); lia.
Qed.

Lemma transaction_lookup_other (db_entry : Row) (t : Table) (d : N) :
  d <> document_id db_entry -> transaction db_entry t !! d = t !! d.
Proof.
  intros Hne. unfold transaction.
  destruct (t !! document_id db_entry); by rewrite lookup_insert_ne.
Qed.

Lemma transaction_lookup_existing (db_entry stored : Row) (t : Table) :
  t !! document_id db_entry = Some stored ->
  exists r,
    transaction db_entry t !! document_id db_entry = Some r
    /\ ingestion_attempt_number r
       = new_attempt_number (ingestion_attempt_number stored)
           (ingestion_status stored) db_entry.
Proof.
  intros Hs. unfold transaction. rewrite Hs.
  eexists. rewrite lookup_insert_eq. split; reflexivity.
Qed.

Lemma attempts_le_refl t : attempts_le t t.
Proof. intros d r H. exists r. split; [exact H | lia]. Qed.

Lemma attempts_le_trans t1 t2 t3 :
  attempts_le t1 t2 -> attempts_le t2 t3 -> attempts_le t1 t3.
Proof.
  intros H12 H23 d r H.
  destruct (H12 d r H) as (r2 & H2 & Hle2).
  destruct (H23 d r2 H2) as (r3 & H3 & Hle3).
  exists r3. split; [exact H3 | lia].
Qed.

Lemma transaction_attempts_le db_entry t :
  attempts_le t (transaction db_entry t).
Proof.
  intros d r H.
  destruct (decide (d = document_id db_entry)) as [->|Hne].
  - destruct (transaction_lookup_existing _ _ _ H) as (r' & Hr' & Hn).
    exists r'. split; [exact Hr'|]. rewrite Hn.
    apply new_attempt_number_ge.
  - exists r. rewrite transaction_lookup_other by exact Hne.
    split; [exact H | lia].
Qed.

Lemma retry_loop_table fuel : forall retries db_entry st,
  table (fst (retry_loop fuel retries db_entry st)) = table st
  \/ table (fst (retry_loop fuel retries db_entry st))
     = transaction db_entry (table st).
Proof.
  induction fuel as [|fuel IH]; intros retries db_entry st; cbn [retry_loop].
  - left. reflexivity.
  - destruct (negb (retries <? max_retries)%nat); [left; reflexivity|].
    destruct (next_verdict st) as [v vs]. destruct v as [|e].
    + right. reflexivity.
    + destruct (is_conflict e); [|left; reflexivity].
      destruct (S retries =? max_retries)%nat; [left; reflexivity|].
      exact (IH (S retries) db_entry
               {| table := table st;
                  slept := slept st ++ [wait_time (S retries)];
                  verdicts := vs |}).
Qed.

Lemma retry_loop_attempts_le fuel retries db_entry st :
  attempts_le (table st) (table (fst (retry_loop fuel retries db_entry st))).
Proof.
  destruct (retry_loop_table fuel retries db_entry st) as [-> | ->].
  - apply attempts_le_refl.
  - apply transaction_attempts_le.
Qed.

Lemma upsert_attempts_le batch : forall st,
  attempts_le (table st) (table (fst (upsert_documents_overview batch st))).
Proof.
  induction batch as [|db_entry rest IH]; intros st;
    cbn [upsert_documents_overview].
  - apply attempts_le_refl.
  - pose proof (retry_loop_attempts_le max_retries 0 db_entry st) as H1.
    destruct (retry_loop max_retries 0 db_entry st) as [st' [u|e]];
      cbn [fst] in *.
    + eapply attempts_le_trans; [exact H1 | apply IH].
    + exact H1.
Qed.

Lemma upsert_calls_attempts_le batches : forall st,
  attempts_le (table st) (table (upsert_calls batches st)).
Proof.
  induction batches as [|batch rest IH]; intros st; cbn.
  - apply attempts_le_refl.
  - eapply attempts_le_trans; [apply upsert_attempts_le | apply IH].
Qed.

(** An upsert of one document whose transaction commits at once. *)
Lemma upsert_commit db_entry st vs :
  verdicts st = Commit :: vs ->
  upsert_documents_overview [db_entry] st
    = ({| table := transaction db_entry (table st); slept := slept st;
          verdicts := vs |}, Ok tt).
Proof.
  intros Hv. cbn. unfold next_verdict. rewrite Hv. reflexivity.
Qed.

(** C1: across any sequence of upsert calls (whatever the store answers to
    their attempts) a stored row stays stored and its
    [ingestion_attempt_number] never decreases; an upsert that finds the row
    and commits writes the stored number plus one exactly when (a) the stored
    status is not "success" and the incoming one is, or (b) the incoming
    attempt number is greater than the stored one, and writes the stored
    number back otherwise. *)
Theorem attempt_number_invariant (st : Store) (d : N) (stored : Row) :
  table st !! d = Some stored ->
  (forall batches, exists r,
      table (upsert_calls batches st) !! d = Some r
      /\ ingestion_attempt_number stored <= ingestion_attempt_number r)
  /\ (forall db_entry vs,
       document_id db_entry = d ->
       verdicts st = Commit :: vs ->
       exists r,
         table (fst (upsert_documents_overview [db_entry] st)) !! d = Some r
         /\ (increments stored db_entry ->
             ingestion_attempt_number r = ingestion_attempt_number stored + 1)
         /\ (~ increments stored db_entry ->
             ingestion_attempt_number r = ingestion_attempt_number stored)).
Proof.
  intros Hstored. split.
  - intros batches. exact (upsert_calls_attempts_le batches st d stored Hstored).
  - intros db_entry vs Hid Hv. subst d.
    rewrite (upsert_commit db_entry st vs Hv). cbn [fst table].
    destruct (transaction_lookup_existing _ _ _ Hstored) as (r & Hr & Hn).
    exists r. split; [exact Hr|]. rewrite Hn.
    apply new_attempt_number_spec.
Qed.

Lemma attempt_number_invariant_witness :
  (exists r,
      table (upsert_calls
               [[Sample.doc 1 [] "pending" 0 5]; [Sample.doc 1 [] "failed" 3 6]]
               (Sample.store Sample.one_row (Sample.conflicts 2)))
        !! 1%N = Some r
      /\ 0 <= ingestion_attempt_number r)
  /\ (exists r,
      table (fst (upsert_documents_overview [Sample.doc 1 [] "pending" 4 5]
                    (Sample.store Sample.one_row [Commit])))
        !! 1%N = Some r
      /\ ingestion_attempt_number r = 0 + 1).
Proof.
  pose proof (attempt_number_invariant
                (Sample.store Sample.one_row (Sample.conflicts 2)) 1%N
                (Sample.doc 1 [5%N] "success" 0 100) eq_refl) as [Hmono _].
  pose proof (attempt_number_invariant
                (Sample.store Sample.one_row [Commit]) 1%N
                (Sample.doc 1 [5%N] "success" 0 100) eq_refl) as [_ Hstep].
  split.
  - exact (Hmono [[Sample.doc 1 [] "pending" 0 5];
                  [Sample.doc 1 [] "failed" 3 6]]).
  - destruct (Hstep (Sample.doc 1 [] "pending" 4 5) [] eq_refl eq_refl)
      as (r & Hr & Hinc & _).
    exists r. split; [exact Hr|]. apply Hinc. right. cbn. lia.
Defined.

(* --------------------------------------------------------------------- *)
(** ** The retry loop                                                      *)
(* --------------------------------------------------------------------- *)

Lemma retry_loop_conflicts db_entry vs (es : list exn) :
  forall retries fuel st,
    Forall (fun e => is_conflict e = true) es ->
    verdicts st = map Abort es ++ Commit :: vs ->
    (retries + length es < max_retries)%nat ->
    (length es < fuel)%nat ->
    retry_loop fuel retries db_entry st
      = ({| table := transaction db_entry (table st);
            slept := slept st
                     ++ map wait_time (seq (S retries) (length es));
            verdicts := vs |}, Ok tt).
Proof.
  induction es as [|e es IH]; intros retries fuel st Hall Hv Hlt Hfuel;
    (destruct fuel as [|fuel]; [cbn in Hfuel; lia|]);
    cbn [retry_loop]; cbn [length] in *.
  - replace (retries <? max_retries)%nat with true
      by (symmetry; apply Nat.ltb_lt; lia).
    cbn [negb]. unfold next_verdict. rewrite Hv. cbn.
    rewrite app_nil_r. reflexivity.
  - replace (retries <? max_retries)%nat with true
      by (symmetry; apply Nat.ltb_lt; lia).
    cbn [negb]. unfold next_verdict. rewrite Hv. cbn [map app].
    inversion Hall as [|? ? He Hes]; subst. rewrite He.
    replace (S retries =? max_retries)%nat with false
      by (symmetry; apply Nat.eqb_neq; lia).
    rewrite (IH (S retries) fuel) by (cbn; auto; lia).
    cbn [table slept verdicts seq map].
    rewrite <- app_assoc. reflexivity.
Qed.

Lemma retry_loop_exhausted db_entry vs e_last (es : list exn) :
  forall retries fuel st,
    Forall (fun e => is_conflict e = true) es ->
    is_conflict e_last = true ->
    verdicts st = map Abort es ++ Abort e_last :: vs ->
    (retries + length es + 1 = max_retries)%nat ->
    (length es < fuel)%nat ->
    retry_loop fuel retries db_entry st
      = ({| table := table st;
            slept := slept st
                     ++ map wait_time (seq (S retries) (length es));
            verdicts := vs |}, Raise e_last).
Proof.
  induction es as [|e es IH]; intros retries fuel st Hall Hlast Hv Hsum Hfuel;
    (destruct fuel as [|fuel]; [cbn in Hfuel; lia|]);
    cbn [retry_loop]; cbn [length] in *.
  - replace (retries <? max_retries)%nat with true
      by (symmetry; apply Nat.ltb_lt; lia).
    cbn [negb]. unfold next_verdict. rewrite Hv. cbn [map app].
    rewrite Hlast.
    replace (S retries =? max_retries)%nat with true
      by (symmetry; apply Nat.eqb_eq; lia).
    cbn. rewrite app_nil_r. reflexivity.
  - replace (retries <? max_retries)%nat with true
      by (symmetry; apply Nat.ltb_lt; lia).
    cbn [negb]. unfold next_verdict. rewrite Hv. cbn [map app].
    inversion Hall as [|? ? He Hes]; subst. rewrite He.
    replace (S retries =? max_retries)%nat with false
      by (symmetry; apply Nat.eqb_neq; lia).
    rewrite (IH (S retries) fuel) by (cbn; auto; lia).
    cbn [table slept verdicts seq map].
    rewrite <- app_assoc. reflexivity.
Qed.

Lemma wait_time_first : (wait_time 1 == 2 # 10)%Q.
Proof. reflexivity. Qed.

Lemma wait_time_doubles k : (wait_time (S k) == 2 * wait_time k)%Q.
Proof.
  unfold wait_time. rewrite Nat2Z.inj_succ, Z.pow_succ_r by lia.
  unfold Qeq, Qmult, inject_Z. cbn [Qnum Qden]. lia.
Qed.

(** C5, as amended: a uniqueness or deadlock conflict makes the same
    document's transaction run again, at most 20 attempts in all; after the
    k-th failed attempt (k = 1..19) the loop waits 0.1 * 2^k seconds, so the
    first wait is 0.2 s and each later wait is twice the one before; when the
    20th attempt fails too, its exception leaves
    [upsert_documents_overview]: the table is as the documents before it left
    it, and the documents after it in the batch are not processed. *)
Theorem retry_schedule (db_entry : Row) (rest : list Row) (st : Store)
    (es : list exn) (vs : list verdict) :
  Forall (fun e => is_conflict e = true) es ->
  ((length es < max_retries)%nat ->
   verdicts st = map Abort es ++ Commit :: vs ->
   upsert_documents_overview (db_entry :: rest) st
     = upsert_documents_overview rest
         {| table := transaction db_entry (table st);
            slept := slept st ++ map wait_time (seq 1 (length es));
            verdicts := vs |})
  /\ (forall e_last,
       is_conflict e_last = true ->
       length es = 19%nat ->
       verdicts st = map Abort es ++ Abort e_last :: vs ->
       upsert_documents_overview (db_entry :: rest) st
         = ({| table := table st;
               slept := slept st ++ map wait_time (seq 1 19);
               verdicts := vs |}, Raise e_last))
  /\ (wait_time 1 == 2 # 10)%Q
  /\ (forall k, (wait_time (S k) == 2 * wait_time k)%Q).
Proof.
  intros Hall. split; [|split; [|split]].
  - intros Hlen Hv. cbn [upsert_documents_overview].
    rewrite (retry_loop_conflicts db_entry vs es 0 max_retries st Hall Hv)
      by (cbn; lia).
    reflexivity.
  - intros e_last Hlast Hlen Hv. cbn [upsert_documents_overview].
    rewrite (retry_loop_exhausted db_entry vs e_last es 0 max_retries st
               Hall Hlast Hv)
      by (rewrite Hlen; unfold max_retries; lia).
    rewrite Hlen. reflexivity.
  - exact wait_time_first.
  - exact wait_time_doubles.
Qed.

Lemma retry_schedule_witness :
  upsert_documents_overview
      [Sample.doc 1 [] "pending" 0 5; Sample.doc 2 [] "pending" 0 6]
      (Sample.store ∅ [Abort UniqueViolationError;
                       Abort DeadlockDetectedError; Commit])
    = upsert_documents_overview [Sample.doc 2 [] "pending" 0 6]
        {| table := transaction (Sample.doc 1 [] "pending" 0 5) ∅;
           slept := [] ++ map wait_time (seq 1 2);
           verdicts := [] |}.
Proof.
  refine (proj1 (retry_schedule (Sample.doc 1 [] "pending" 0 5)
                   [Sample.doc 2 [] "pending" 0 6]
                   (Sample.store ∅ [Abort UniqueViolationError;
                                    Abort DeadlockDetectedError; Commit])
                   [UniqueViolationError; DeadlockDetectedError] [] _) _ _).
  - repeat constructor.
  - unfold max_retries. cbn. lia.
  - reflexivity.
Defined.

(** C5 as stated fails twice: the wait after the first conflict is 0.2 s, not
    0.1 s; and when the first document of a batch fails its 20th attempt the
    call raises and the second document is never written. *)
Lemma first_wait_and_batch_abort :
  (exists w,
      slept (fst (upsert_documents_overview [Sample.doc 1 [] "pending" 0 5]
                    (Sample.store ∅ [Abort UniqueViolationError; Commit])))
        = [w]
      /\ (w == 2 # 10)%Q /\ ~ (w == 1 # 10)%Q)
  /\ snd (upsert_documents_overview
            [Sample.doc 1 [] "pending" 0 5; Sample.doc 2 [] "pending" 0 6]
            (Sample.store ∅ (Sample.conflicts 20)))
       = Raise UniqueViolationError
  /\ table (fst (upsert_documents_overview
                   [Sample.doc 1 [] "pending" 0 5;
                    Sample.doc 2 [] "pending" 0 6]
                   (Sample.store ∅ (Sample.conflicts 20)))) !! 2%N = None.
Proof.
  split; [|split].
  - eexists. split; [reflexivity|]. split; [reflexivity|].
    intros H. vm_compute in H. discriminate H.
  - reflexivity.
  - reflexivity.
Qed.

(* --------------------------------------------------------------------- *)
(** ** Delete                                                              *)
(* --------------------------------------------------------------------- *)

(** A version label that is given and differs from the stored one leaves the
    row in place. *)
Lemma delete_other_version id v (t : Table) (r : Row) :
  t !! id = Some r -> v <> "" -> version r <> v ->
  delete_from_documents_overview id (Some v) t = t.
Proof.
  intros Hr Hv Hne. unfold delete_from_documents_overview, version_given.
  destruct (String.eqb_spec v ""); [contradiction|]. cbn [negb].
  rewrite Hr. cbn.
  destruct (String.eqb_spec (version r) v); [contradiction|reflexivity].
Qed.

(** C10: [version = ""] is the same call as no version: the row of the
    document is removed whatever version label it stores, and no other row is
    touched. *)
Theorem delete_empty_version (id : N) (t : Table) :
  delete_from_documents_overview id (Some "") t
    = delete_from_documents_overview id None t
  /\ delete_from_documents_overview id (Some "") t !! id = None
  /\ (forall d, d <> id ->
        delete_from_documents_overview id (Some "") t !! d = t !! d).
Proof.
  unfold delete_from_documents_overview. cbn [version_given String.eqb negb].
  split; [reflexivity|]. split.
  - apply lookup_delete_eq.
  - intros d Hne. apply lookup_delete_ne. congruence.
Qed.

End UpsertFacts.

(* ===================================================================== *)
(** * Properties of the document store: status queries                     *)
(* ===================================================================== *)

Module StatusFacts.
Import Py DocStore.

(** Mapping a list of records, used as the function, over the members of an
    enumeration: it raises at the first member, and gives nothing when there
    is no member. *)
Lemma list_map_records (records : list obj) (m : StatusModel) :
  list_map (OList records) (OEnumClass m)
    = match members m with
      | [] => Ok []
      | _ :: _ => Raise (TypeError "'list' object is not callable")
      end.
Proof.
  unfold list_map, py_iter. unfold_bind.
  destruct (members m); reflexivity.
Qed.

(** C2 fails on the code: [get_workflow_status] passes the fetched records as
    the function of [map] and the enumeration class as its iterable.  For a
    single id the call raises whatever the relation holds; for a list of ids
    it never returns a status ([TypeError] as soon as the enumeration has a
    member).  On the sample relation, where document 1 exists with status
    "success", the call raises [TypeError]. *)
Theorem get_workflow_status_raises (enums : Enums)
    (relations : gmap string Table) (status_type : string) :
  (forall id : N,
      match get_workflow_status enums relations (inl id) status_type with
      | Ok _ => False
      | Raise _ => True
      end)
  /\ (forall ids : list N,
      match get_workflow_status enums relations (inr ids) status_type with
      | Ok r => r = OList []
      | Raise _ => True
      end)
  /\ get_workflow_status Sample.enums Sample.relations (inl 1%N)
       "kg_extraction_status"
     = Raise (TypeError "'list' object is not callable")
  /\ get_workflow_status Sample.enums Sample.relations (inr [1%N])
       "kg_extraction_status"
     = Raise (TypeError "'list' object is not callable").
Proof.
  split; [|split; [|split; reflexivity]].
  - intros id. unfold get_workflow_status. unfold_bind.
    destruct (_get_status_model enums status_type) as [m|e]; [|exact I].
    destruct (_get_status_from_table _ _ _ _ _) as [records|e]; [|exact I].
    rewrite list_map_records.
    destruct (members m); exact I.
  - intros ids. unfold get_workflow_status. unfold_bind.
    destruct (_get_status_model enums status_type) as [m|e]; [|exact I].
    destruct (_get_status_from_table _ _ _ _ _) as [records|e]; [|exact I].
    rewrite list_map_records.
    destruct (members m); [reflexivity | exact I].
Qed.

Lemma filter_none {A} (f : A -> bool) (l : list A) :
  (forall a, f a = false) -> List.filter f l = [].
Proof.
  intros H. induction l as [|a l IH]; cbn; [reflexivity|].
  rewrite H. exact IH.
Qed.

Lemma null_collection_never_true (c : tri) (arr : list N) :
  is_true (tri_and c (uuid_eq_any None arr)) = false.
Proof. destruct c, arr; reflexivity. Qed.

(** With a collection id the query returns the ids of the rows whose status
    is one of the given values and whose collections include it. *)
Lemma get_ids_with_collection (enums : Enums) (relations : gmap string Table)
    (status_type : string) (status : list string) (c : N) (m : StatusModel)
    (t : Table) (col : Row -> string) :
  _get_status_model enums status_type = Ok m ->
  relations !! table_name m = Some t ->
  column status_type = Some (fun r => SText (col r)) ->
  get_document_ids_by_status enums relations status_type (inr status) (Some c)
    = Ok (map document_id
            (List.filter
               (fun r => existsb (String.eqb (col r)) status
                         && existsb (N.eqb c) (collection_ids r))
               (scan t))).
Proof.
  intros Hm Ht Hc. unfold get_document_ids_by_status. unfold_bind.
  rewrite Hm. unfold _get_ids_from_table. rewrite Ht, Hc.
  do 2 f_equal. apply filter_ext. intros r.
  unfold text_eq_any, uuid_eq_any.
  destruct (existsb _ status), (existsb _ (collection_ids r)); reflexivity.
Qed.

(** C3 fails on the code: without a collection id the query still carries
    [$2 = ANY(collection_ids)] with [$2] NULL, which is true of no row, so the
    call returns no id at all.  On the sample relation document 1 has status
    "success" and the call for "success" returns the empty list. *)
Theorem get_document_ids_without_collection (enums : Enums)
    (relations : gmap string Table) (status_type : string)
    (status : string + list string) :
  match get_document_ids_by_status enums relations status_type status None
  with
  | Ok ids => ids = []
  | Raise _ => True
  end
  /\ kg_extraction_status <$> (Sample.one_row !! 1%N) = Some "success"
  /\ get_document_ids_by_status Sample.enums Sample.relations
       "kg_extraction_status" (inl "success") None = Ok []
  /\ get_document_ids_by_status Sample.enums Sample.relations
       "kg_extraction_status" (inl "success") (Some 5%N) = Ok [1%N].
Proof.
  split; [|split; [|split]]; [|reflexivity..].
  unfold get_document_ids_by_status. unfold_bind.
  destruct (_get_status_model enums status_type) as [m|e]; [|exact I].
  unfold _get_ids_from_table.
  destruct (relations !! table_name m) as [t|]; [|exact I].
  destruct (column status_type) as [col|]; [|exact I].
  rewrite filter_none; [reflexivity|].
  intros r. apply null_collection_never_true.
Qed.

End StatusFacts.

(* ===================================================================== *)
(** * Properties of the descending sort                                    *)
(* ===================================================================== *)

Module DescFacts.

Lemma StronglySorted_weaken {A} (R R' : A -> A -> Prop) (l : list A) :
  (forall a b, R a b -> R' a b) -> StronglySorted R l -> StronglySorted R' l.
Proof.
  intros Himp. induction 1 as [|a l Hs IH Hall]; constructor; [exact IH|].
  eapply Forall_impl; [exact Hall|]. cbv beta. auto.
Qed.

Section Sort.
Context {A : Type} (gtb : A -> A -> bool).

Lemma insert_perm (x : A) (l : list A) :
  Permutation (Desc.insert gtb x l) (x :: l).
Proof.
  induction l as [|y l IH]; cbn; [reflexivity|].
  destruct (gtb y x); [|reflexivity].
  rewrite IH. apply perm_swap.
Qed.

Lemma sort_perm (l : list A) : Permutation (Desc.sort gtb l) l.
Proof.
  induction l as [|x l IH]; [reflexivity|].
  change (Permutation (Desc.insert gtb x (Desc.sort gtb l)) (x :: l)).
  rewrite insert_perm. constructor. exact IH.
Qed.

(** On the elements that satisfy [P], [gtb] is a strict weak order. *)
Context (P : A -> Prop).
Hypothesis gtb_asym :
  forall a b, P a -> P b -> gtb a b = true -> gtb b a = false.
Hypothesis not_gtb_trans :
  forall a b c, P a -> P b -> P c ->
    gtb b a = false -> gtb c b = false -> gtb c a = false.

Lemma insert_sorted (x : A) (l : list A) :
  P x -> Forall P l ->
  StronglySorted (Desc.precedes gtb) l -> StronglySorted (Desc.precedes gtb) (Desc.insert gtb x l).
Proof.
  intros Px. induction l as [|y l IH]; intros HP Hs; cbn.
  - constructor; constructor.
  - inversion HP as [|? ? Py HPl]; subst.
    inversion Hs as [|? ? Hsl Hy]; subst.
    destruct (gtb y x) eqn:E.
    + constructor; [apply IH; assumption|].
      rewrite insert_perm. constructor; [|exact Hy].
      unfold Desc.precedes. apply gtb_asym; assumption.
    + constructor; [exact Hs|].
      constructor; [exact E|].
      rewrite Forall_forall in Hy, HPl. apply Forall_forall.
      intros z Hz. unfold Desc.precedes.
      apply (not_gtb_trans x y z); auto. apply Hy. exact Hz.
Qed.

Lemma sort_sorted (l : list A) :
  Forall P l -> StronglySorted (Desc.precedes gtb) (Desc.sort gtb l).
Proof.
  induction l as [|x l IH]; intros HP.
  - constructor.
  - change (StronglySorted (Desc.precedes gtb)
              (Desc.insert gtb x (Desc.sort gtb l))).
    inversion HP; subst. apply insert_sorted; auto.
    rewrite sort_perm. assumption.
Qed.
End Sort.
End DescFacts.

(* ===================================================================== *)
(** * Properties of the document store: the overview                       *)
(* ===================================================================== *)

Module OverviewFacts.
Import Py DocStore.

Lemma traverse_ok {A B} (f : A -> result B) (l : list A) :
  Forall (fun a => exists b, f a = Ok b) l ->
  exists bs, traverse f l = Ok bs /\ Forall2 (fun a b => f a = Ok b) l bs.
Proof.
  induction l as [|a l IH]; intros H; cbn.
  - exists []. split; [reflexivity | constructor].
  - inversion H as [|? ? [b Hb] Hl]; subst.
    destruct (IH Hl) as (bs & Hbs & HF).
    exists (b :: bs). unfold_bind. rewrite Hb, Hbs.
    split; [reflexivity | constructor; assumption].
Qed.

Lemma order_perm (rows : list Row) :
  Permutation (order_by_created_at_desc rows) rows.
Proof. apply DescFacts.sort_perm. Qed.

Lemma order_sorted (rows : list Row) :
  StronglySorted (fun a b => created_at b <= created_at a)
    (order_by_created_at_desc rows).
Proof.
  pose proof (DescFacts.sort_sorted newer (fun _ => True)) as H.
  eapply DescFacts.StronglySorted_weaken; [|apply H].
  - intros a b Hab. unfold Desc.precedes, newer in Hab.
    apply Z.ltb_ge in Hab. exact Hab.
  - intros a b _ _. unfold newer. rewrite Z.ltb_lt, Z.ltb_ge. lia.
  - intros a b c _ _ _. unfold newer. rewrite !Z.ltb_ge. lia.
  - apply Forall_forall. intros; exact I.
Qed.

Lemma page_ok offset limit rows :
  0 <= offset -> limit = -1 \/ 0 <= limit ->
  page offset limit rows = Ok (page_of offset limit rows).
Proof.
  intros Ho Hl. unfold page, page_of.
  destruct (Z.ltb_spec offset 0); [lia|].
  destruct (Z.eqb_spec limit (-1)); [reflexivity|].
  destruct (Z.ltb_spec limit 0); [lia|reflexivity].
Qed.

Lemma traverse_stops {A B} (f : A -> result B) (l : list A) :
  Exists (fun a => exists e, f a = Raise e) l ->
  exists e, traverse f l = Raise e.
Proof.
  induction l as [|a l IH]; intros H; [inversion H|].
  cbn. unfold_bind. destruct (f a) as [b|e] eqn:Ea; [|eauto].
  inversion H as [? ? [e He]|? ? Hl]; subst; [congruence|].
  destruct (IH Hl) as [e ->]. eauto.
Qed.

Lemma scanned (t : Table) (r : Row) :
  In r (scan t) <-> exists k, t !! k = Some r.
Proof.
  unfold scan. rewrite in_map_iff. split.
  - intros ([k r'] & <- & Hin). exists k.
    apply elem_of_map_to_list, list_elem_of_In. exact Hin.
  - intros [k Hk]. exists (k, r). split; [reflexivity|].
    apply list_elem_of_In, elem_of_map_to_list. exact Hk.
Qed.

Lemma existsb_In (x : N) (l : list N) : existsb (N.eqb x) l = true <-> In x l.
Proof.
  rewrite existsb_exists. split.
  - intros (y & Hy & E). apply N.eqb_eq in E. subst. exact Hy.
  - intros H. exists x. split; [exact H | apply N.eqb_refl].
Qed.

Lemma overlap_In (a b : list N) :
  overlap a b = true <-> exists c, In c a /\ In c b.
Proof.
  unfold overlap. rewrite existsb_exists. split.
  - intros (c & Hc & E). exists c. split; [exact Hc | apply existsb_In, E].
  - intros (c & Ha & Hb). exists c. split; [exact Ha | apply existsb_In, Hb].
Qed.

(** The WHERE clause that the function builds selects what the filters ask
    for. *)
Lemma matches_selects (fu fd fc : option (list N)) (r : Row) :
  matches fu fd fc r = true <-> selects fu fd fc r.
Proof.
  unfold matches, selects. rewrite !andb_true_iff. 
  assert (Hone : forall (f : option (list N)) (test : list N -> bool)
                   (P : list N -> Prop),
             (forall ids, test ids = true <-> P ids) ->
             ((if given f then test (default [] f) else true) = true
              <-> (forall ids, f = Some ids -> ids <> [] -> P ids))).
  { intros f test P Hspec. destruct f as [[|x ids]|]; cbn.
    - split; [|reflexivity]. intros _ ids E. injection E as <-. congruence.
    - rewrite Hspec. split.
      + intros H ids' E _. injection E as <-. exact H.
      + intros H. apply (H (x :: ids)); [reflexivity | discriminate].
    - split; [|reflexivity]. intros _ ids E. discriminate E. }
  rewrite (Hone fd (fun ids => existsb (N.eqb (document_id r)) ids)
             (fun ids => In (document_id r) ids))
    by (intros; apply existsb_In).
  rewrite (Hone fu (fun ids => existsb (N.eqb (user_id r)) ids)
             (fun ids => In (user_id r) ids))
    by (intros; apply existsb_In).
  rewrite (Hone fc (fun ids => overlap (collection_ids r) ids)
             (fun ids => exists c, In c (collection_ids r) /\ In c ids))
    by (intros; apply overlap_In).
  tauto.
Qed.

(** C9, as amended: for a non-negative offset and a limit that is -1 or
    non-negative, [get_documents_overview] works on the rows that the given
    filters select (a filter that is absent or an empty list does not
    restrict), ordered newest-created-first, from position [offset] on, all
    of them when [limit] is -1 and at most [limit] of them otherwise.  When
    every row of that page converts to a [DocumentInfo] (type and statuses
    in their enumerations, metadata that decodes as JSON) it returns their
    documents, with [total_entries] the number of selected rows when the
    page has a row and 0 when the page is empty; when a row of the page does
    not convert it raises [R2RException] 500. *)
Theorem get_documents_overview_page (enums : Enums) (lim : Json.Limits)
    (filter_user_ids filter_document_ids filter_collection_ids
       : option (list N))
    (offset limit : Z) (t : Table) :
  let matching :=
    List.filter
      (matches filter_user_ids filter_document_ids filter_collection_ids)
      (scan t) in
  let ordered := order_by_created_at_desc matching in
  let pg := page_of offset limit ordered in
  0 <= offset ->
  limit = -1 \/ 0 <= limit ->
  (Forall (fun r => exists d, to_document_info enums lim r = Ok d) pg ->
   exists documents,
     get_documents_overview enums lim filter_user_ids filter_document_ids
       filter_collection_ids offset limit t
       = Ok (documents,
             match pg with
             | [] => 0
             | _ :: _ => Z.of_nat (length matching)
             end)
     /\ Forall2 (fun r d => to_document_info enums lim r = Ok d) pg documents)
  /\ (Exists (fun r => exists e, to_document_info enums lim r = Raise e) pg ->
      get_documents_overview enums lim filter_user_ids filter_document_ids
        filter_collection_ids offset limit t
        = Raise (R2RException 500 "Database query failed"))
  /\ (forall r,
        In r matching <->
        (exists k, t !! k = Some r)
        /\ selects filter_user_ids filter_document_ids filter_collection_ids
             r)
  /\ Permutation ordered matching
  /\ StronglySorted (fun a b => created_at b <= created_at a) ordered.
Proof.
  intros matching ordered pg Ho Hl.
  assert (Hrun :
            get_documents_overview enums lim filter_user_ids
              filter_document_ids filter_collection_ids offset limit t
            = match traverse (to_document_info enums lim) pg with
              | Ok documents =>
                  Ok (documents,
                      match pg with
                      | [] => 0
                      | _ :: _ => Z.of_nat (length matching)
                      end)
              | Raise _ => Raise (R2RException 500 "Database query failed")
              end).
  { unfold get_documents_overview, overview_query. unfold_bind.
    fold matching. fold ordered.
    rewrite (page_ok offset limit ordered Ho Hl). fold pg.
    rewrite map_map. cbn [fst]. rewrite map_id.
    destruct (traverse (to_document_info enums lim) pg); [|reflexivity].
    destruct pg; reflexivity. }
  split; [|split; [|split; [|split]]].
  - intros Hconv.
    destruct (traverse_ok (to_document_info enums lim) pg Hconv)
      as (documents & Hdocs & HF).
    exists documents. split; [|exact HF]. rewrite Hrun, Hdocs. reflexivity.
  - intros Hbad. rewrite Hrun.
    destruct (traverse_stops _ _ Hbad) as [e ->]. reflexivity.
  - intros r. unfold matching. rewrite filter_In, scanned, matches_selects.
    reflexivity.
  - apply order_perm.
  - apply order_sorted.
Qed.

Lemma get_documents_overview_page_witness :
  exists documents,
    get_documents_overview Sample.enums Sample.limits None None None 0 (-1)
      Sample.one_row
      = Ok (documents, 1)
    /\ Forall2 (fun r d => to_document_info Sample.enums Sample.limits r = Ok d)
         [Sample.doc 1 [5%N] "success" 0 100] documents.
Proof.
  destruct (get_documents_overview_page Sample.enums Sample.limits None None
              None 0 (-1) Sample.one_row ltac:(lia) ltac:(left; reflexivity))
    as (Hgood & _).
  exact (Hgood ltac:(repeat constructor; eexists; reflexivity)).
Defined.

(** C9 as stated fails: with one stored row, no filter and offset 1 the page
    is empty and [total_entries] is 0, although one row matches. *)
Lemma total_entries_of_empty_page :
  length (List.filter (matches None None None) (scan Sample.one_row)) = 1%nat
  /\ get_documents_overview Sample.enums Sample.limits None None None 1 (-1)
       Sample.one_row
     = Ok ([], 0)
  /\ get_documents_overview Sample.enums Sample.limits None None None 0 0
       Sample.one_row
     = Ok ([], 0).
Proof. repeat split; vm_compute; reflexivity. Qed.

End OverviewFacts.

(* ===================================================================== *)
(** * Properties of [filter_responses]                                     *)
(* ===================================================================== *)

Module KGSearchFacts.
Import Py KGSearch.

(** ** The order on scores *)

Lemma num_gtb_asym (a b : pynum) : num_gtb a b = true -> num_gtb b a = false.
Proof.
  destruct a as [x| | |], b as [y| | |]; cbn; try congruence.
  rewrite Z.ltb_lt, Z.ltb_ge. lia.
Qed.

Lemma not_num_gtb_trans (a b c : pynum) :
  a <> NaN -> b <> NaN -> c <> NaN ->
  num_gtb b a = false -> num_gtb c b = false -> num_gtb c a = false.
Proof.
  destruct a as [x| | |], b as [y| | |], c as [z| | |]; cbn;
    try congruence.
  rewrite !Z.ltb_ge. intros _ _ _ Hyx Hzy.
  exact (Qle_trans z y x Hzy Hyx).
Qed.

Lemma positive_not_nan (n : pynum) : num_gtb n (Fin 0) = true -> n <> NaN.
Proof. destruct n; cbn; congruence. Qed.

(** ** The two loops *)

Lemma scan_points_well_formed (items : list pyval) :
  forall filtered,
    forallb well_formed_item items = true ->
    scan_points items filtered
      = Ok (filtered ++ List.filter retained items).
Proof.
  induction items as [|item items IH]; intros filtered Hwf; cbn.
  - rewrite app_nil_r. reflexivity.
  - cbn in Hwf. apply andb_true_iff in Hwf as [Hitem Hrest].
    destruct item as [| | | |?|d]; try discriminate Hitem.
    unfold retained at 1. cbn [score_of getitem well_formed_item] in *.
    unfold_bind.
    destruct (dict_get "score" d) as [sc|]; cbn.
    + apply andb_true_iff in Hitem as [Hnum _].
      unfold gt_zero. unfold_bind.
      destruct sc; try discriminate Hnum; cbn [as_number number_of].
      * destruct (num_gtb _ (Fin 0)).
        -- rewrite IH by exact Hrest. rewrite <- app_assoc. reflexivity.
        -- apply IH, Hrest.
      * destruct (num_gtb _ (Fin 0)).
        -- rewrite IH by exact Hrest. rewrite <- app_assoc. reflexivity.
        -- apply IH, Hrest.
    + apply IH, Hrest.
Qed.

Lemma scan_responses_well_formed (lim : Json.Limits)
    (map_responses : list string) :
  forall filtered,
    Forall (fun r => well_formed_response lim r = true) map_responses ->
    scan_responses lim map_responses filtered
      = Ok (filtered
            ++ List.filter retained
                 (concat (map (points_of lim) map_responses))).
Proof.
  induction map_responses as [|response rest IH]; intros filtered Hwf.
  - cbn. rewrite app_nil_r. reflexivity.
  - inversion Hwf as [|? ? Hr Hrest]; subst.
    cbn [scan_responses map concat]. rewrite List.filter_app.
    unfold scan_response, well_formed_response, points_of in *.
    unfold_bind.
    destruct (Json.json_loads lim response) as [parsed|e] eqn:Hparse.
    + destruct parsed as [| | | |?|d]; try discriminate Hr.
      cbn [getitem].
      destruct (dict_get "points" d) as [points|].
      * destruct points as [| | | |items|?]; try discriminate Hr.
        cbn [iterate].
        rewrite (scan_points_well_formed items filtered Hr).
        rewrite (IH _ Hrest). rewrite <- app_assoc. reflexivity.
      * cbn. apply IH, Hrest.
    + destruct e; try discriminate Hr. cbn. apply IH, Hrest.
Qed.

(** ** Items that are kept *)

Lemma points_well_formed (lim : Json.Limits) (response : string) :
  well_formed_response lim response = true ->
  forallb well_formed_item (points_of lim response) = true.
Proof.
  unfold well_formed_response, points_of.
  destruct (Json.json_loads lim response) as [parsed|e]; [|reflexivity].
  destruct parsed as [| | | |?|d]; try reflexivity.
  destruct (dict_get "points" d) as [points|]; [|reflexivity].
  destruct points; try reflexivity. auto.
Qed.

Lemma kept_good (lim : Json.Limits) (map_responses : list string) :
  Forall (fun r => well_formed_response lim r = true) map_responses ->
  Forall good
    (List.filter retained (concat (map (points_of lim) map_responses))).
Proof.
  intros Hwf. apply Forall_forall. intros item Hin.
  apply list_elem_of_In, filter_In in Hin as [Hin Hret].
  split; [|exact Hret].
  apply in_concat in Hin as (items & Hitems & Hitem).
  apply in_map_iff in Hitems as (response & <- & Hresp).
  rewrite Forall_forall in Hwf.
  pose proof (points_well_formed lim response
                (Hwf response (proj2 (list_elem_of_In _ _) Hresp))) as Hall.
  rewrite forallb_forall in Hall. apply Hall, Hitem.
Qed.

Lemma decorate_good (item : pyval) :
  good item -> decorate item = Ok (score_of item, item).
Proof.
  intros [Hwf Hret]. unfold retained in Hret.
  destruct item as [| | | |?|d]; try discriminate Hwf.
  unfold decorate. cbn [getitem score_of well_formed_item] in *.
  unfold_bind.
  destruct (dict_get "score" d) as [sc|]; [|discriminate Hret].
  apply andb_true_iff in Hwf as [Hnum _].
  destruct sc; try discriminate Hnum; reflexivity.
Qed.

Lemma description_good (item : pyval) :
  good item -> description item = Ok (PStr (description_of item)).
Proof.
  intros [Hwf Hret]. unfold retained in Hret.
  destruct item as [| | | |?|d]; try discriminate Hwf.
  cbn [description description_of score_of well_formed_item] in *.
  destruct (dict_get "score" d) as [sc|]; [|discriminate Hret].
  apply andb_true_iff in Hwf as [_ Hdesc].
  rewrite Hret in Hdesc. cbn in Hdesc.
  destruct (dict_get "description" d) as [v|]; [|reflexivity].
  destruct v; try discriminate Hdesc; reflexivity.
Qed.

Lemma traverse_map {A B} (f : A -> result B) (g : A -> B) (l : list A) :
  Forall (fun a => f a = Ok (g a)) l -> traverse f l = Ok (map g l).
Proof.
  induction 1 as [|a l Ha Hl IH]; cbn; [reflexivity|].
  unfold_bind. rewrite Ha, IH. reflexivity.
Qed.

Lemma traverse_as_str (l : list string) :
  traverse as_str (map PStr l) = Ok l.
Proof.
  induction l as [|s l IH]; cbn; [reflexivity|].
  unfold_bind. rewrite IH. reflexivity.
Qed.

(** ** The ranking *)

Lemma ranked_perm (kept : list pyval) :
  Permutation (map snd (sort_desc (map keyed kept))) kept.
Proof.
  unfold sort_desc. rewrite DescFacts.sort_perm.
  rewrite map_map. cbn. rewrite map_id. reflexivity.
Qed.

Lemma sorted_keys (l : list (pynum * pyval)) :
  Forall (fun p => fst p = score_of (snd p)) l ->
  StronglySorted (Desc.precedes score_gtb) l ->
  StronglySorted not_below (map snd l).
Proof.
  intros Hkeys Hs. induction Hs as [|p l Hs IH Hall]; cbn; constructor.
  - apply IH. inversion Hkeys; assumption.
  - inversion Hkeys as [|? ? Hp Hl]; subst.
    apply Forall_map. rewrite Forall_forall in Hall, Hl.
    apply Forall_forall. intros q Hq.
    unfold not_below. rewrite <- Hp, <- (Hl q Hq).
    exact (Hall q Hq).
Qed.

Lemma ranked_sorted (kept : list pyval) :
  Forall good kept ->
  StronglySorted not_below (map snd (sort_desc (map keyed kept))).
Proof.
  intros Hgood. apply sorted_keys.
  - unfold sort_desc. rewrite DescFacts.sort_perm.
    apply Forall_map, Forall_forall. reflexivity.
  - unfold sort_desc.
    apply (DescFacts.sort_sorted score_gtb (fun p => fst p <> NaN)).
    + intros a b _ _. apply num_gtb_asym.
    + intros a b c Ha Hb Hc. unfold score_gtb.
      apply not_num_gtb_trans; assumption.
    + apply Forall_map. eapply Forall_impl; [exact Hgood|].
      intros item [_ Hret]. cbn. apply positive_not_nan. exact Hret.
Qed.

(** The example of the merge, for an interpreter that can enter the three
    containers that its first response nests. *)
Lemma example_merge (lim : Json.Limits) :
  (3 <= Json.max_depth lim)%nat ->
  filter_responses lim example_responses = Ok "A".
Proof.
  destruct lim as [[|[|[|depth]]] digits]; cbn [Json.max_depth];
    intros Hd; try lia.
  vm_compute. reflexivity.
Qed.

(** C4, as amended: when for every response [json.loads] either raises
    [JSONDecodeError] or returns a JSON object whose "points", if present,
    is an array of objects, each with no "score" or a numeric one (and, when
    the score is greater than 0, with no "description" or a string one),
    [filter_responses] returns normally: the responses that do not parse or
    have no "points" and the items without a score contribute nothing, the
    items with a score greater than 0 are kept, ranked by descending score,
    and the result is their descriptions joined by newlines.  On the example
    of the merge it is "A" (for an interpreter that can nest three
    containers). *)
Theorem filter_responses_well_formed (lim : Json.Limits)
    (map_responses : list string) :
  Forall (fun r => well_formed_response lim r = true) map_responses ->
  let kept :=
    List.filter retained (concat (map (points_of lim) map_responses)) in
  let ranked := map snd (sort_desc (map keyed kept)) in
  filter_responses lim map_responses
    = Ok (join newline (map description_of ranked))
  /\ Permutation ranked kept
  /\ StronglySorted not_below ranked
  /\ ((3 <= Json.max_depth lim)%nat ->
      filter_responses lim example_responses = Ok "A").
Proof.
  intros Hwf kept ranked.
  pose proof (kept_good lim map_responses Hwf) as Hgood. fold kept in Hgood.
  assert (Hranked : Forall good ranked).
  { unfold ranked. rewrite ranked_perm. exact Hgood. }
  split; [|split; [apply ranked_perm|split; [apply ranked_sorted, Hgood|]]].
  - unfold filter_responses. unfold_bind.
    rewrite (scan_responses_well_formed lim map_responses [] Hwf).
    cbn [app]. fold kept.
    rewrite (traverse_map decorate keyed kept)
      by (eapply Forall_impl; [exact Hgood|]; apply decorate_good).
    fold ranked.
    rewrite (traverse_map description (fun i => PStr (description_of i)) ranked)
      by (eapply Forall_impl; [exact Hranked|]; apply description_good).
    rewrite <- (map_map description_of PStr), traverse_as_str.
    reflexivity.
  - apply example_merge.
Qed.

Lemma filter_responses_well_formed_witness :
  filter_responses Sample.limits
      [ Json.dq "{'points':[{'score':1,'description':'low'},{'score':0}]}";
        "oops";
        Json.dq "{'points':[{'score':2.5,'description':'high'},{'score':1e-400,'description':'zero'}]}" ]
    = Ok ("high" +:+ newline +:+ "low")
  /\ filter_responses Sample.limits example_responses = Ok "A".
Proof.
  pose proof (filter_responses_well_formed Sample.limits
                [ Json.dq "{'points':[{'score':1,'description':'low'},{'score':0}]}";
                  "oops";
                  Json.dq "{'points':[{'score':2.5,'description':'high'},{'score':1e-400,'description':'zero'}]}" ]
                ltac:(repeat constructor)) as (Hrun & _ & _ & Hexample).
  split; [exact Hrun|]. apply Hexample. cbn. lia.
Defined.

(** C4 as stated fails: a response that is valid JSON but not an object, an
    item whose score is not a number, a "points" that cannot be iterated, or
    a response nested deeper than the interpreter allows makes
    [filter_responses] raise. *)
Lemma filter_responses_raises :
  filter_responses Sample.limits [ "[1]" ]
    = Raise (TypeError "list indices must be integers or slices")
  /\ filter_responses Sample.limits [ Json.dq "{'points':[{'score':'high'}]}" ]
    = Raise (TypeError "ordering not supported between these types")
  /\ filter_responses Sample.limits [ Json.dq "{'points':null}" ]
    = Raise (TypeError "object is not iterable")
  /\ filter_responses
       {| Json.max_depth := 2; Json.int_max_str_digits := 4300 |}
       [ "[[[1]]]" ]
    = Raise RecursionError.
Proof. repeat split; vm_compute; reflexivity. Qed.

End KGSearchFacts.

(* ===================================================================== *)
(** * Properties of [AsyncPipe.run]                                        *)
(* ===================================================================== *)

Module AsyncPipeFacts.
Import AsyncPipe.

Lemma run_schedule_app (s1 s2 : list step) (w : world) :
  run_schedule (s1 ++ s2) w = run_schedule s2 (run_schedule s1 w).
Proof. unfold run_schedule. apply fold_left_app. Qed.

(** The core logic and the workers leave the tasks, the task attribute of the
    pipe and the generators alone. *)
Lemma quiet_steps (steps : list step) :
  forall w,
    Forall (fun s => quiet s = true) steps ->
    tasks (run_schedule steps w) = tasks w
    /\ log_worker_task (run_schedule steps w) = log_worker_task w
    /\ calls (run_schedule steps w) = calls w.
Proof.
  induction steps as [|s steps IH]; intros w Hq; [repeat split|].
  inversion Hq as [|? ? Hs Hrest]; subst.
  change (run_schedule (s :: steps) w) with (run_schedule steps (exec s w)).
  destruct (IH (exec s w) Hrest) as (Ht & Hl & Hc).
  rewrite Ht, Hl, Hc. clear IH Ht Hl Hc.
  destruct s as [c|c|ev|t|c how]; try discriminate Hs; cbn [exec].
  - unfold enqueue_log. destruct (_ <? _)%nat; repeat split.
  - unfold worker. destruct (tasks w !! t) as [[|]|];
      destruct (log_queue w); repeat split.
Qed.

(** One call of [run] iterated with no other call of the same pipe starting
    or ending in between: however it ends, the queue is empty afterwards and
    the log worker it created is no longer active. *)
Lemma isolated_run (c : CallId) (how : ending) (steps : list step)
    (w : world) :
  calls w !! c = Some Created ->
  Forall (fun s => quiet s = true) steps ->
  let w' := run_schedule (Start c :: steps ++ [Finish c how]) w in
  closed c w' = true /\ worker_active c w' = false /\ log_queue w' = [].
Proof.
  intros Hc Hq w'. subst w'.
  change (run_schedule (Start c :: steps ++ [Finish c how]) w)
    with (run_schedule (steps ++ [Finish c how]) (start c w)).
  rewrite run_schedule_app.
  destruct (quiet_steps steps (start c w) Hq) as (Ht & Hl & Hcalls).
  set (w1 := run_schedule steps (start c w)) in *.
  unfold start in Ht, Hl, Hcalls. rewrite Hc in Ht, Hl, Hcalls.
  cbn [tasks log_worker_task calls] in Ht, Hl, Hcalls.
  set (t := length (tasks w)) in *.
  assert (Hpending : tasks w1 !! t = Some Pending).
  { rewrite Ht. subst t. rewrite lookup_app_r by lia.
    rewrite Nat.sub_diag. reflexivity. }
  cbn [run_schedule fold_left exec]. unfold finish.
  rewrite Hcalls, lookup_insert_eq. unfold finally, done.
  rewrite Hl, Hpending.
  unfold closed, worker_active, done.
  cbn [calls tasks log_queue]. rewrite lookup_insert_eq.
  assert (Hlt : (t < length (tasks w1))%nat).
  { rewrite Ht, length_app. cbn. lia. }
  rewrite list_lookup_insert_eq by exact Hlt.
  repeat split.
Qed.

(** C8 fails on the code when two iterations of [run] on one pipe overlap:
    [self.log_worker_task] is an attribute of the pipe, so the second call
    overwrites the task of the first; the [finally] of the first call then
    cancels the second call's worker, and the first call's worker is never
    cancelled: it stays active after both calls have ended. *)
Theorem overlapping_runs_leak_worker :
  let w := run_schedule overlapping (init 100) in
  closed 1%nat w = true
  /\ closed 2%nat w = true
  /\ worker_active 1%nat w = true
  /\ worker_active 2%nat w = false
  /\ tasks w = [Pending; Cancelled].
Proof. cbv zeta. repeat split; vm_compute; reflexivity. Qed.

End AsyncPipeFacts.

(* ===================================================================== *)
(** * The decoder has enough fuel                                          *)
(* ===================================================================== *)

Module JsonFacts.
Import Py Json.

Abbreviation len := String.length.

Lemma skip_ws_length (s : string) : (len (skip_ws s) <= len s)%nat.
Proof.
  induction s as [|c s IH]; cbn; [lia|].
  destruct (is_ws c); cbn; lia.
Qed.

Lemma strip_prefix_length (p : string) :
  forall s r, strip_prefix p s = Some r -> (len r + len p = len s)%nat.
Proof.
  induction p as [|a p IH]; intros s r H; cbn in H.
  - injection H as <-. cbn. lia.
  - destruct s as [|b s]; [discriminate|].
    destruct (a =? b)%char; [|discriminate].
    apply IH in H. cbn. lia.
Qed.

Ltac break_match H :=
  match type of H with
  | context [match ?x with _ => _ end] => destruct x eqn:?
  end.

Lemma scan_string_length (n : nat) :
  forall s body rest,
    (len s <= n)%nat -> scan_string s = Some (body, rest) ->
    (len rest < len s)%nat.
Proof.
  induction n as [|n IH]; intros s body rest Hn H;
    (destruct s as [|c s]; [discriminate H|]); cbn in Hn; [lia|].
  assert (IH' : forall s' body' rest',
             (len s' <= len s)%nat -> scan_string s' = Some (body', rest') ->
             (len rest' < len s')%nat).
  { intros s' body' rest' Hs'. apply IH. lia. }
  clear IH. cbn [scan_string] in H.
  repeat (break_match H; try discriminate H; subst; cbn [len] in * );
    injection H as <- <-; cbn [len];
    repeat match goal with
      | E : scan_string ?x = Some _ |- _ =>
          apply IH' in E; [|cbn [len]; lia]
      end;
    cbn [len] in *; lia.
Qed.

Lemma take_digits_length (s : string) :
  forall ds rest, take_digits s = (ds, rest) -> (len rest <= len s)%nat.
Proof.
  induction s as [|c s IH]; intros ds rest H; cbn in H.
  - injection H as <- <-. cbn. lia.
  - destruct (digit_val c).
    + destruct (take_digits s) as [ds' rest'] eqn:E.
      injection H as <- <-. specialize (IH _ _ eq_refl). cbn. lia.
    + injection H as <- <-. cbn. lia.
Qed.

Lemma scan_int_length (s : string) ds rest :
  scan_int s = Some (ds, rest) -> (len rest < len s)%nat.
Proof.
  unfold scan_int. destruct s as [|c s]; [discriminate|].
  destruct (digit_val c) as [d|]; [|discriminate].
  destruct (d =? 0).
  - intros H. injection H as <- <-. cbn. lia.
  - destruct (take_digits s) as [ds' rest'] eqn:E.
    intros H. injection H as <- <-.
    apply take_digits_length in E. cbn. lia.
Qed.

Lemma scan_frac_length (s : string) ds rest :
  scan_frac s = (ds, rest) -> (len rest <= len s)%nat.
Proof.
  unfold scan_frac. destruct s as [|c s].
  - intros H. injection H as <- <-. lia.
  - destruct (c =? ".")%char.
    + destruct (take_digits s) as [ds' rest'] eqn:E.
      apply take_digits_length in E.
      destruct ds'; intros H; injection H as <- <-; cbn; lia.
    + intros H. injection H as <- <-. lia.
Qed.

Lemma scan_exp_length (s : string) ex rest :
  scan_exp s = (ex, rest) -> (len rest <= len s)%nat.
Proof.
  unfold scan_exp. destruct s as [|c s].
  - intros H. injection H as <- <-. lia.
  - destruct (_ || _)%bool; [|intros H; injection H as <- <-; lia].
    destruct s as [|c1 s1].
    + cbn. intros H. injection H as <- <-. cbn. lia.
    + destruct (c1 =? "-")%char; [|destruct (c1 =? "+")%char];
        match goal with
        | |- context [take_digits ?x] =>
            destruct (take_digits x) as [ds' rest'] eqn:E;
            apply take_digits_length in E
        end;
        destruct ds'; intros H; injection H as <- <-; cbn in *; lia.
Qed.

Lemma scan_number_length (lim : Limits) (s : string) n rest :
  scan_number lim s = Some (n, rest) -> (len rest < len s)%nat.
Proof.
  unfold scan_number.
  set (start := match s with
                | String c r => if (c =? "-")%char then (true, r) else (false, s)
                | EmptyString => (false, s)
                end).
  assert (Hstart : (len (snd start) <= len s)%nat).
  { subst start. destruct s as [|c r]; [cbn; lia|].
    destruct (c =? "-")%char; cbn; lia. }
  destruct start as [neg s1]. cbn [snd] in Hstart.
  destruct (scan_int s1) as [[ids s2]|] eqn:Ei; [|discriminate].
  destruct (scan_frac s2) as [fds s3] eqn:Ef.
  destruct (scan_exp s3) as [ex s4] eqn:Ee.
  apply scan_int_length in Ei. apply scan_frac_length in Ef.
  apply scan_exp_length in Ee.
  destruct fds, ex; try destruct (int_refused lim (length ids));
    intros H; injection H as _ <-; lia.
Qed.

Lemma scan_constant_parsed (lim : Limits) (s : string) v rest :
  scan_constant lim s = Parsed v rest -> (len rest < len s)%nat.
Proof.
  unfold scan_constant. intros H.
  repeat match type of H with
    | context [strip_prefix ?p s] =>
        let E := fresh "E" in
        destruct (strip_prefix p s) eqn:E;
        [injection H as _ <-; apply strip_prefix_length in E; cbn in E; lia|]
    | context [scan_number lim s] =>
        let E := fresh "E" in
        destruct (scan_number lim s) as [[[? | ?] ?]|] eqn:E;
        [injection H as _ <-; apply scan_number_length in E; exact E
        |discriminate H|]
    end.
  discriminate H.
Qed.

Lemma scan_constant_fuel (lim : Limits) (s : string) :
  scan_constant lim s <> OutOfFuel.
Proof.
  unfold scan_constant.
  repeat match goal with
    | |- context [strip_prefix ?p s] => destruct (strip_prefix p s)
    | |- context [scan_number lim s] =>
        destruct (scan_number lim s) as [[[? | ?] ?]|]
    end; discriminate.
Qed.

Lemma answers_invalid (s : string) : answers Invalid s.
Proof. split; [discriminate|]. intros v rest H. discriminate H. Qed.

Lemma answers_failed (e : exn) (s : string) : answers (Failed e) s.
Proof. split; [discriminate|]. intros v rest H. discriminate H. Qed.

Lemma answers_parsed v rest (s : string) :
  (len rest < len s)%nat -> answers (Parsed v rest) s.
Proof.
  intros Hl. split; [discriminate|].
  intros v' rest' H. injection H as _ <-. exact Hl.
Qed.

Lemma answers_shorter r (s s' : string) :
  answers r s' -> (len s' <= len s)%nat -> answers r s.
Proof.
  intros [Hf Hp] Hl. split; [exact Hf|].
  intros v rest H. specialize (Hp v rest H). lia.
Qed.

Lemma parse_fuel (lim : Limits) (fuel : nat) :
  (forall depth s, (2 * len s < fuel)%nat ->
     answers (parse_value lim fuel depth s) s)
  /\ (forall depth s acc, (2 * len s + 1 < fuel)%nat ->
        answers (parse_elements lim fuel depth s acc) s)
  /\ (forall depth s acc, (2 * len s + 1 < fuel)%nat ->
        answers (parse_members lim fuel depth s acc) s).
Proof.
  induction fuel as [|fuel (IHv & IHe & IHm)].
  { repeat split; intros; lia. }
  split; [|split].
  - intros depth s Hs. cbn [parse_value].
    destruct s as [|c r]; [apply answers_invalid|]. cbn [len] in Hs.
    destruct (c =? dquote)%char.
    { destruct (scan_string r) as [[body rest]|] eqn:E;
        [|apply answers_invalid].
      apply answers_parsed.
      apply (scan_string_length (len r)) in E; [cbn; lia | lia]. }
    pose proof (skip_ws_length r) as Hws.
    destruct (c =? "{")%char.
    { destruct depth as [|depth]; [apply answers_failed|].
      destruct (skip_ws r) as [|c1 r1] eqn:E; [apply answers_invalid|].
      cbn [len] in Hws.
      destruct (c1 =? "}")%char; [apply answers_parsed; cbn; lia|].
      eapply answers_shorter; [apply IHm|]; cbn [len]; lia. }
    destruct (c =? "[")%char.
    { destruct depth as [|depth]; [apply answers_failed|].
      destruct (skip_ws r) as [|c1 r1] eqn:E; [apply answers_invalid|].
      cbn [len] in Hws.
      destruct (c1 =? "]")%char; [apply answers_parsed; cbn; lia|].
      eapply answers_shorter; [apply IHe|]; cbn [len]; lia. }
    split; [apply scan_constant_fuel | apply scan_constant_parsed].
  - intros depth s acc Hs. cbn [parse_elements].
    destruct (IHv depth s ltac:(lia)) as [Hf Hp].
    destruct (parse_value lim fuel depth s) as [v rest| |e|];
      [|apply answers_invalid|apply answers_failed|contradiction].
    specialize (Hp v rest eq_refl).
    pose proof (skip_ws_length rest) as Hws.
    destruct (skip_ws rest) as [|c r] eqn:E; [apply answers_invalid|].
    cbn [len] in Hws.
    destruct (c =? ",")%char.
    { pose proof (skip_ws_length r).
      eapply answers_shorter; [apply IHe|]; lia. }
    destruct (c =? "]")%char; [|apply answers_invalid].
    apply answers_parsed. lia.
  - intros depth s acc Hs. cbn [parse_members].
    destruct s as [|c r]; [apply answers_invalid|]. cbn [len] in Hs.
    destruct (c =? dquote)%char; [|apply answers_invalid].
    destruct (scan_string r) as [[key rest]|] eqn:Ek; [|apply answers_invalid].
    apply (scan_string_length (len r)) in Ek; [|lia].
    pose proof (skip_ws_length rest) as Hws.
    destruct (skip_ws rest) as [|c2 r2] eqn:E; [apply answers_invalid|].
    cbn [len] in Hws.
    destruct (c2 =? ":")%char; [|apply answers_invalid].
    pose proof (skip_ws_length r2) as Hws2.
    destruct (IHv depth (skip_ws r2) ltac:(lia)) as [Hf Hp].
    destruct (parse_value lim fuel depth (skip_ws r2)) as [v rest2| |e|];
      [|apply answers_invalid|apply answers_failed|contradiction].
    specialize (Hp v rest2 eq_refl).
    pose proof (skip_ws_length rest2) as Hws3.
    destruct (skip_ws rest2) as [|c3 r3] eqn:E3; [apply answers_invalid|].
    cbn [len] in Hws3.
    destruct (c3 =? ",")%char.
    { pose proof (skip_ws_length r3).
      eapply answers_shorter; [apply IHm|]; cbn [len]; lia. }
    destruct (c3 =? "}")%char; [|apply answers_invalid].
    apply answers_parsed. cbn [len]. lia.
Qed.

(** [json.loads] always answers: the fuel [decode] supplies is never used
    up, so [JSONDecodeError] from [json_loads] is a verdict on the text. *)
Lemma json_loads_fuel (lim : Limits) (s : string) : decode lim s <> OutOfFuel.
Proof.
  unfold decode.
  pose proof (skip_ws_length s) as Hws.
  destruct (parse_fuel lim (fuel_for s)) as (Hv & _ & _).
  destruct (Hv (max_depth lim) (skip_ws s)) as [Hf _];
    [unfold fuel_for; lia|].
  destruct (parse_value lim (fuel_for s) (max_depth lim) (skip_ws s))
    as [v rest| |e|]; [|discriminate|discriminate|contradiction].
  destruct (skip_ws rest); discriminate.
Qed.

End JsonFacts.

(* ===================================================================== *)
(** * [AsyncState]: how update, get and delete compose                     *)
(* ===================================================================== *)

Module AsyncStateMore.
Import Py.

(** The bucket that [update] builds from an existing one. *)
Lemma merge_lookup_other (kvs : list (string * pyval)) :
  forall (b : gmap string pyval) k,
    ~ In k (map fst kvs) ->
    fold_left (fun b kv => <[fst kv := snd kv]> b) kvs b !! k = b !! k.
Proof.
  induction kvs as [|[k' v'] kvs IH]; intros b k Hk; cbn; [reflexivity|].
  cbn in Hk. rewrite IH by tauto.
  apply lookup_insert_ne. intros ->. tauto.
Qed.

Lemma merge_lookup_in (kvs : list (string * pyval)) :
  forall (b : gmap string pyval) k v,
    List.NoDup (map fst kvs) -> In (k, v) kvs ->
    fold_left (fun b kv => <[fst kv := snd kv]> b) kvs b !! k = Some v.
Proof.
  induction kvs as [|[k' v'] kvs IH]; intros b k v Hnd Hin; cbn;
    [destruct Hin|].
  cbn in Hnd. inversion Hnd as [|? ? Hk' Hnd']; subst.
  destruct Hin as [E|Hin].
  - injection E as -> ->. rewrite merge_lookup_other by exact Hk'.
    apply lookup_insert_eq.
  - apply IH; assumption.
Qed.

Lemma update_bucket outer_key kvs (st : AsyncState.data) :
  fst (AsyncState.update outer_key (Some kvs) st) !! outer_key
    = Some (fold_left (fun b kv => <[fst kv := snd kv]> b) kvs
              (default ∅ (st !! outer_key))).
Proof. cbn. apply lookup_insert_eq. Qed.

(** X1: a value written by [update] is what [get] returns for its key,
    whatever default is passed and whether or not the bucket existed. *)
Theorem update_then_get (st : AsyncState.data) (outer_key : string)
    (values : list (string * pyval)) (inner_key : string) (v default : pyval) :
  List.NoDup (map fst values) ->
  In (inner_key, v) values ->
  snd (AsyncState.update outer_key (Some values) st) = Ok tt
  /\ snd (AsyncState.get outer_key inner_key default
            (fst (AsyncState.update outer_key (Some values) st))) = Ok v.
Proof.
  intros Hnd Hin. split; [reflexivity|].
  unfold AsyncState.get. rewrite update_bucket.
  rewrite (merge_lookup_in values _ inner_key v Hnd Hin). reflexivity.
Qed.

Lemma update_then_get_witness :
  snd (AsyncState.get "run" "b" PNone
         (fst (AsyncState.update "run"
                 (Some [("a", PBool true); ("b", PStr "x")]) ∅)))
    = Ok (PStr "x").
Proof.
  refine (proj2 (update_then_get ∅ "run" [("a", PBool true); ("b", PStr "x")]
                   "b" (PStr "x") PNone _ _)).
  - repeat constructor; cbn; intuition discriminate.
  - right. left. reflexivity.
Defined.

(** X2: [update] merges: the other buckets keep their content, and in the
    updated bucket the inner keys that [values] does not mention keep their
    value. *)
Theorem update_keeps_the_rest (st : AsyncState.data) (outer_key : string)
    (values : list (string * pyval)) (other_key inner_key : string) :
  other_key <> outer_key ->
  ~ In inner_key (map fst values) ->
  fst (AsyncState.update outer_key (Some values) st) !! other_key
    = st !! other_key
  /\ (fst (AsyncState.update outer_key (Some values) st) !! outer_key
        ≫= (fun b => b !! inner_key))
     = (st !! outer_key ≫= (fun b => b !! inner_key)).
Proof.
  intros Hne Hk. split.
  - cbn. apply lookup_insert_ne. congruence.
  - rewrite update_bucket. cbn.
    rewrite merge_lookup_other by exact Hk.
    destruct (st !! outer_key); reflexivity.
Qed.

Lemma update_keeps_the_rest_witness :
  let st : AsyncState.data :=
    {[ "run" := ({[ "kept" := PStr "old" ]} : gmap string pyval);
       "other" := (∅ : gmap string pyval) ]} in
  fst (AsyncState.update "run" (Some [("new", PNone)]) st) !! "other"
    = Some ∅
  /\ (fst (AsyncState.update "run" (Some [("new", PNone)]) st) !! "run"
        ≫= (fun b => b !! "kept"))
     = Some (PStr "old").
Proof.
  cbv zeta.
  refine (update_keeps_the_rest _ "run" [("new", PNone)] "other" "kept" _ _).
  - discriminate.
  - cbn. intuition discriminate.
Defined.

(** X3: [delete] without an inner key removes the whole bucket, and so does
    [delete] with the empty string as inner key, even when the bucket has an
    entry under the empty string; afterwards [get] on that outer key raises,
    and the other buckets are as before. *)
Theorem delete_whole_bucket (st : AsyncState.data) (outer_key : string)
    (bucket : gmap string pyval) (inner_key : option string) :
  st !! outer_key = Some bucket ->
  inner_key = None \/ inner_key = Some "" ->
  AsyncState.delete outer_key inner_key st = (delete outer_key st, Ok tt)
  /\ (forall k default,
        snd (AsyncState.get outer_key k default
               (fst (AsyncState.delete outer_key inner_key st)))
          = Raise (AsyncState.missing_outer outer_key))
  /\ (forall other, other <> outer_key ->
        fst (AsyncState.delete outer_key inner_key st) !! other = st !! other).
Proof.
  intros Hb Hk.
  assert (E : AsyncState.delete outer_key inner_key st
              = (delete outer_key st, Ok tt)).
  { unfold AsyncState.delete. rewrite Hb.
    rewrite bool_decide_eq_true_2 by eauto.
    destruct Hk as [-> | ->]; reflexivity. }
  rewrite E. cbn [fst]. split; [reflexivity|]. split.
  - intros k default. unfold AsyncState.get.
    rewrite lookup_delete_eq. reflexivity.
  - intros other Hne. apply lookup_delete_ne. congruence.
Qed.

Lemma delete_whole_bucket_witness :
  AsyncState.delete "run" (Some "")
      ({[ "run" := ({[ "" := PNone; "a" := PNone ]} : gmap string pyval) ]}
         : AsyncState.data)
    = (delete "run" {[ "run" := {[ "" := PNone; "a" := PNone ]} ]}, Ok tt).
Proof.
  exact (proj1 (delete_whole_bucket
                  {[ "run" := ({[ "" := PNone; "a" := PNone ]}
                                 : gmap string pyval) ]}
                  "run" {[ "" := PNone; "a" := PNone ]} (Some "")
                  eq_refl (or_intror eq_refl))).
Defined.

(** X4: [delete] with a non-empty inner key that the bucket has removes that
    entry only: [get] then falls back to the default for it, and every other
    entry of the bucket and every other bucket is as before. *)
Theorem delete_inner_entry (st : AsyncState.data) (outer_key inner_key : string)
    (bucket : gmap string pyval) (v : pyval) :
  st !! outer_key = Some bucket ->
  bucket !! inner_key = Some v ->
  inner_key <> "" ->
  let st' := fst (AsyncState.delete outer_key (Some inner_key) st) in
  snd (AsyncState.delete outer_key (Some inner_key) st) = Ok tt
  /\ st' = <[outer_key := delete inner_key bucket]> st
  /\ (forall default,
        snd (AsyncState.get outer_key inner_key default st')
          = Ok (if truthy default then default else PDict []))
  /\ (forall k default, k <> inner_key ->
        snd (AsyncState.get outer_key k default st')
          = snd (AsyncState.get outer_key k default st)).
Proof.
  intros Hb Hv Hne st'.
  assert (E : AsyncState.delete outer_key (Some inner_key) st
              = (<[outer_key := delete inner_key bucket]> st, Ok tt)).
  { unfold AsyncState.delete, AsyncState.key_truthy. rewrite Hb, Hv.
    destruct (String.eqb_spec inner_key ""); [contradiction|].
    rewrite andb_false_r. reflexivity. }
  subst st'. rewrite E. cbn [fst snd].
  split; [reflexivity|]. split; [reflexivity|]. split.
  - intros default. unfold AsyncState.get.
    rewrite lookup_insert_eq, lookup_delete_eq. reflexivity.
  - intros k default Hk. unfold AsyncState.get.
    rewrite lookup_insert_eq, Hb, lookup_delete_ne by congruence.
    destruct (bucket !! k); reflexivity.
Qed.

Lemma delete_inner_entry_witness :
  snd (AsyncState.get "run" "a" (PStr "gone")
         (fst (AsyncState.delete "run" (Some "a")
                 ({[ "run" := ({[ "a" := PNone ]} : gmap string pyval) ]}
                    : AsyncState.data))))
    = Ok (PStr "gone").
Proof.
  pose proof (delete_inner_entry
                ({[ "run" := ({[ "a" := PNone ]} : gmap string pyval) ]}
                   : AsyncState.data)
                "run" "a" {[ "a" := PNone ]} PNone eq_refl eq_refl
                ltac:(discriminate)) as (_ & _ & Hget & _).
  exact (Hget (PStr "gone")).
Defined.

End AsyncStateMore.

(* ===================================================================== *)
(** * [AsyncPipe]: the log queue                                           *)
(* ===================================================================== *)

Module AsyncPipeMore.
Import AsyncPipe.

(** X5: one iteration of [run] that no other iteration on the same pipe
    overlaps ends, however it ends (exhausted, an exception of the core
    logic, or abandoned), with the queue empty and the log worker it created
    cancelled. *)
Theorem isolated_run_cleans_up (c : CallId) (how : ending)
    (steps : list step) (w : world) :
  calls w !! c = Some Created ->
  Forall (fun s => quiet s = true) steps ->
  let w' := run_schedule (Start c :: steps ++ [Finish c how]) w in
  closed c w' = true /\ worker_active c w' = false /\ log_queue w' = [].
Proof. apply AsyncPipeFacts.isolated_run. Qed.

Lemma isolated_run_cleans_up_witness :
  let w' :=
    run_schedule
      (Start 1%nat
         :: [EnqueueLog (7%N, "k", "v"); Worker 0%nat;
             EnqueueLog (7%N, "k2", "v2")]
         ++ [Finish 1%nat (CoreRaised (Py.ValueError "boom"))])
      (call 1%nat (init 100)) in
  closed 1%nat w' = true /\ worker_active 1%nat w' = false
  /\ log_queue w' = [].
Proof.
  apply (isolated_run_cleans_up 1%nat (CoreRaised (Py.ValueError "boom"))
           [EnqueueLog (7%N, "k", "v"); Worker 0%nat;
            EnqueueLog (7%N, "k2", "v2")]
           (call 1%nat (init 100))).
  - reflexivity.
  - repeat constructor.
Defined.

Lemma exec_max (s : step) (w : world) :
  max_log_queue_size (exec s w) = max_log_queue_size w.
Proof.
  destruct s as [c|c|ev|t|c how]; cbn [exec].
  - unfold call. destruct (calls w !! c); reflexivity.
  - unfold start. destruct (calls w !! c) as [[| |]|]; reflexivity.
  - unfold enqueue_log. destruct (_ <? _)%nat; reflexivity.
  - unfold worker. destruct (tasks w !! t) as [[|]|];
      destruct (log_queue w); reflexivity.
  - unfold finish. destruct (calls w !! c) as [[| |]|]; reflexivity.
Qed.

Lemma exec_bounded (s : step) (w : world) :
  (length (log_queue w) <= max_log_queue_size w)%nat ->
  (length (log_queue (exec s w)) <= max_log_queue_size w)%nat.
Proof.
  intros Hb. destruct s as [c|c|ev|t|c how]; cbn [exec].
  - unfold call. destruct (calls w !! c); exact Hb.
  - unfold start. destruct (calls w !! c) as [[| |]|]; exact Hb.
  - unfold enqueue_log.
    destruct (Nat.ltb_spec (length (log_queue w)) (max_log_queue_size w));
      [|exact Hb].
    cbn [log_queue]. rewrite length_app. cbn. lia.
  - unfold worker. destruct (tasks w !! t) as [[|]|]; try exact Hb.
    destruct (log_queue w) eqn:E; [rewrite E; exact Hb|].
    cbn in *. lia.
  - unfold finish. destruct (calls w !! c) as [[| |]|]; try exact Hb.
    cbn. lia.
Qed.

(** X6: the log queue never holds more than [max_log_queue_size] events:
    a pipe whose queue is within the bound stays within it under every
    schedule of calls, starts, enqueues, worker rounds and ends. *)
Theorem log_queue_bounded (sched : list step) (w : world) :
  (length (log_queue w) <= max_log_queue_size w)%nat ->
  (length (log_queue (run_schedule sched w)) <= max_log_queue_size w)%nat.
Proof.
  revert w. induction sched as [|s sched IH]; intros w Hb; [exact Hb|].
  change (run_schedule (s :: sched) w) with (run_schedule sched (exec s w)).
  rewrite <- (exec_max s w). apply IH. rewrite exec_max.
  apply exec_bounded, Hb.
Qed.

Lemma log_queue_bounded_witness :
  (length (log_queue
             (run_schedule
                [Call 1%nat; Start 1%nat; EnqueueLog (7%N, "a", "1");
                 EnqueueLog (7%N, "b", "2"); EnqueueLog (7%N, "c", "3")]
                (init 2)))
   <= 2)%nat.
Proof.
  apply (log_queue_bounded
           [Call 1%nat; Start 1%nat; EnqueueLog (7%N, "a", "1");
            EnqueueLog (7%N, "b", "2"); EnqueueLog (7%N, "c", "3")]
           (init 2)).
  cbn. lia.
Defined.

(** A worker round moves the head of the queue to the end of what is
    persisted, or does nothing. *)
Lemma worker_conserves (t : TaskId) (w : world) :
  persisted (worker t w) ++ log_queue (worker t w)
    = persisted w ++ log_queue w.
Proof.
  unfold worker.
  destruct (tasks w !! t) as [[|]|]; destruct (log_queue w) eqn:E;
    cbn [persisted log_queue]; rewrite ?E, <- ?app_assoc; reflexivity.
Qed.

Lemma admitted_sublist (sched : list step) :
  forall w, sublist (admitted sched w) (offered sched).
Proof.
  induction sched as [|s sched IH]; intros w; [constructor|].
  destruct s as [c|c|ev|t|c how]; cbn [admitted];
    try (change (offered (_ :: sched)) with (offered sched); apply IH).
  change (offered (EnqueueLog ev :: sched)) with (ev :: offered sched).
  destruct (_ <? _)%nat; constructor; apply IH.
Qed.

Lemma quiet_queue_length (s : step) (w : world) :
  quiet s = true ->
  (length (log_queue (exec s w))
   <= length (log_queue w)
      + match s with EnqueueLog _ => 1 | _ => 0 end)%nat.
Proof.
  destruct s as [c|c|ev|t|c how]; try discriminate; intros _; cbn [exec].
  - unfold enqueue_log. destruct (_ <? _)%nat; cbn [log_queue];
      rewrite ?length_app; cbn; lia.
  - unfold worker. destruct (tasks w !! t) as [[|]|]; try lia.
    destruct (log_queue w) eqn:E; cbn [log_queue]; rewrite ?E; cbn; lia.
Qed.

Lemma admitted_all (sched : list step) :
  forall w,
    Forall (fun s => quiet s = true) sched ->
    (length (log_queue w) + length (offered sched)
     <= max_log_queue_size w)%nat ->
    admitted sched w = offered sched.
Proof.
  induction sched as [|s sched IH]; intros w Hq Hroom; [reflexivity|].
  inversion Hq as [|? ? Hs Hrest]; subst.
  pose proof (quiet_queue_length s w Hs) as Hlen.
  pose proof (exec_max s w) as Hmax.
  destruct s as [c|c|ev|t|c how]; try discriminate Hs; cbn [admitted].
  - change (offered (EnqueueLog ev :: sched)) with (ev :: offered sched)
      in *.
    cbn [length] in Hroom.
    destruct (Nat.ltb_spec (length (log_queue w)) (max_log_queue_size w));
      [|lia].
    f_equal. apply IH; [exact Hrest|]. rewrite Hmax. lia.
  - change (offered (Worker t :: sched)) with (offered sched) in *.
    apply IH; [exact Hrest|]. rewrite Hmax. lia.
Qed.

(** X7: while only [enqueue_log] and rounds of the log workers run, nothing
    is lost or reordered except by the bound of the queue: what has been
    handed to [logging_provider.log] followed by what is still queued is
    what it was before, followed by exactly the offered events that found
    the queue below [max_log_queue_size] when they were offered, in the
    order in which they were offered; and when the queue has room for all
    the offered events, every one of them is among these. *)
Theorem log_events_in_order (sched : list step) (w : world) :
  Forall (fun s => quiet s = true) sched ->
  persisted (run_schedule sched w) ++ log_queue (run_schedule sched w)
    = persisted w ++ log_queue w ++ admitted sched w
  /\ sublist (admitted sched w) (offered sched)
  /\ ((length (log_queue w) + length (offered sched)
       <= max_log_queue_size w)%nat ->
      admitted sched w = offered sched).
Proof.
  intros Hq. split; [|split; [apply admitted_sublist|]].
  - revert w. induction sched as [|s sched IH]; intros w.
    + cbn. rewrite app_nil_r. reflexivity.
    + inversion Hq as [|? ? Hs Hrest]; subst.
      change (run_schedule (s :: sched) w)
        with (run_schedule sched (exec s w)).
      rewrite (IH Hrest (exec s w)).
      destruct s as [c|c|ev|t|c how]; try discriminate Hs;
        cbn [exec admitted].
      * unfold enqueue_log.
        destruct (_ <? _)%nat; cbn [persisted log_queue]; [|reflexivity].
        rewrite <- !app_assoc. reflexivity.
      * rewrite !app_assoc. f_equal. apply worker_conserves.
  - intros Hroom. apply admitted_all; assumption.
Qed.

Lemma log_events_in_order_witness :
  persisted (run_schedule
               [EnqueueLog (7%N, "a", "1"); Worker 0%nat;
                EnqueueLog (7%N, "b", "2")]
               (start 1%nat (call 1%nat (init 2))))
  ++ log_queue (run_schedule
                  [EnqueueLog (7%N, "a", "1"); Worker 0%nat;
                   EnqueueLog (7%N, "b", "2")]
                  (start 1%nat (call 1%nat (init 2))))
  = [(7%N, "a", "1"); (7%N, "b", "2")].
Proof.
  destruct (log_events_in_order
              [EnqueueLog (7%N, "a", "1"); Worker 0%nat;
               EnqueueLog (7%N, "b", "2")]
              (start 1%nat (call 1%nat (init 2)))
              ltac:(repeat constructor)) as (Hkeep & _ & Hall).
  rewrite Hkeep, (Hall ltac:(vm_compute; lia)). reflexivity.
Defined.

End AsyncPipeMore.

(* ===================================================================== *)
(** * [filter_responses]: responses that are passed over                   *)
(* ===================================================================== *)

Module KGSearchMore.
Import Py KGSearch.

Lemma scan_response_skipped (lim : Json.Limits) (response : string)
    (filtered : list pyval) :
  skipped lim response ->
  scan_response lim response filtered = Raise JSONDecodeError
  \/ scan_response lim response filtered = Raise (KeyError "points").
Proof.
  intros [He | (d & Hd & Hp)]; unfold scan_response; unfold_bind.
  - left. rewrite He. reflexivity.
  - right. rewrite Hd. cbn [getitem]. rewrite Hp. reflexivity.
Qed.

Lemma scan_responses_skipped (lim : Json.Limits) (response : string)
    (l2 : list string) :
  skipped lim response ->
  forall l1 filtered,
    scan_responses lim (l1 ++ response :: l2) filtered
      = scan_responses lim (l1 ++ l2) filtered.
Proof.
  intros Hs l1. induction l1 as [|r l1 IH]; intros filtered; cbn.
  - destruct (scan_response_skipped lim response filtered Hs) as [-> | ->];
      reflexivity.
  - destruct (scan_response lim r filtered) as [filtered'|e]; [apply IH|].
    destruct e; try reflexivity; apply IH.
Qed.

(** X8: a response for which [json.loads] raises [JSONDecodeError], or that
    is a JSON object without "points", has no effect on the result wherever
    it stands among the responses: the call returns (or raises) what it does
    without it.  (A text that takes [json.loads] beyond a limit of the
    interpreter raises another exception and is not such a response.) *)
Theorem skipped_response_has_no_effect (lim : Json.Limits)
    (l1 l2 : list string) (response : string) :
  skipped lim response ->
  filter_responses lim (l1 ++ response :: l2)
    = filter_responses lim (l1 ++ l2).
Proof.
  intros Hs. unfold filter_responses.
  rewrite (scan_responses_skipped lim response l2 Hs l1 []). reflexivity.
Qed.

Lemma skipped_response_has_no_effect_witness :
  filter_responses Sample.limits
      ([Json.dq "{'points':[{'score':1,'description':'x'}]}"]
         ++ Json.dq "{'answer':42}" :: [Json.dq "[1]"])
    = filter_responses Sample.limits
        ([Json.dq "{'points':[{'score':1,'description':'x'}]}"]
           ++ [Json.dq "[1]"]).
Proof.
  apply (skipped_response_has_no_effect Sample.limits
           [Json.dq "{'points':[{'score':1,'description':'x'}]}"]
           [Json.dq "[1]"] (Json.dq "{'answer':42}")).
  right. eexists. split; reflexivity.
Defined.

End KGSearchMore.

(* ===================================================================== *)
(** * [_run_logic] and [local_search]                                      *)
(* ===================================================================== *)

Module KGLocalFacts.
Import Py KGLocal.

Section Pipe.
Context {E : Type}.
Context (async_get_embedding : string -> result E).
Context (vector_query :
           VectorQuery E -> result (stream (list (string * pyval)))).

Abbreviation search_message' :=
  (search_message async_get_embedding vector_query).
Abbreviation local_search' :=
  (local_search async_get_embedding vector_query).

Lemma then_Forall {A} (P : A -> Prop) (s1 s2 : stream A) :
  Forall P (fst s1) -> Forall P (fst s2) -> Forall P (fst (then_ s1 s2)).
Proof.
  intros H1 H2. unfold then_. destruct (snd s1); [exact H1|].
  cbn. apply Forall_app. split; assumption.
Qed.

Lemma yield_each_Forall {A B} (f : A -> result B) (P : B -> Prop)
    (hits : list A) (ending : option exn) :
  (forall x y, f x = Ok y -> P y) ->
  Forall P (fst (yield_each f hits ending)).
Proof.
  intros Hf. induction hits as [|x hits IH]; cbn; [constructor|].
  destruct (f x) as [y|e] eqn:Ef; [|constructor].
  destruct (yield_each f hits ending) as [ys e]. cbn in *.
  constructor; [exact (Hf x y Ef) | exact IH].
Qed.

Lemma query_and_yield_Forall (P : KGSearchResult -> Prop) q f :
  (forall x y, f x = Ok y -> P y) ->
  Forall P (fst (query_and_yield vector_query q f)).
Proof.
  intros Hf. unfold query_and_yield.
  destruct q as [q|e]; [|constructor].
  destruct (vector_query q) as [[hits ending]|e]; [|constructor].
  apply yield_each_Forall, Hf.
Qed.

Lemma entity_result_shape message hit r :
  entity_result message hit = Ok r ->
  method r = LOCAL /\ result_type r = ENTITY
  /\ associated_query r = Some (PStr message)
  /\ exists ids, extraction_ids r = Some ids.
Proof.
  unfold entity_result. unfold_bind.
  destruct (lookup_key hit "name"); [|discriminate].
  destruct (lookup_key hit "description"); [|discriminate].
  destruct (lookup_key hit "extraction_ids"); [|discriminate].
  intros H. injection H as <-. cbn. eauto.
Qed.

Lemma community_result_shape message hit r :
  community_result message hit = Ok r ->
  method r = LOCAL /\ result_type r = COMMUNITY
  /\ associated_query r = Some (PStr message)
  /\ extraction_ids r = None.
Proof.
  unfold community_result. unfold_bind.
  destruct (lookup_key hit "name"); [|discriminate].
  destruct (lookup_key hit "summary"); [|discriminate].
  destruct (lookup_key hit "rating"); [|discriminate].
  destruct (lookup_key hit "rating_explanation"); [|discriminate].
  destruct (lookup_key hit "findings"); [|discriminate].
  intros H. injection H as <-. cbn. auto.
Qed.

(** X9: whatever the embedding provider and the vector index answer, the
    results of one message come as entity results followed by community
    results: no entity result follows a community result, and all of them
    carry the message as their associated query. *)
Theorem entity_results_before_community_results
    (kg_search_settings : KGSearchSettings) (message : string) :
  exists entities communities,
    fst (search_message' kg_search_settings message)
      = entities ++ communities
    /\ Forall (fun r => result_type r = ENTITY
                        /\ associated_query r = Some (PStr message))
         entities
    /\ Forall (fun r => result_type r = COMMUNITY
                        /\ associated_query r = Some (PStr message))
         communities.
Proof.
  unfold search_message.
  destruct (async_get_embedding message) as [query_embedding|e].
  2:{ exists [], []. repeat split; constructor. }
  match goal with
  | |- context [then_ ?s1 ?s2] =>
      set (entity_stream := s1); set (community_stream := s2)
  end.
  assert (He : Forall (fun r => result_type r = ENTITY
                                /\ associated_query r = Some (PStr message))
                 (fst entity_stream)).
  { apply query_and_yield_Forall. intros x y Hy.
    apply entity_result_shape in Hy. tauto. }
  assert (Hc : Forall (fun r => result_type r = COMMUNITY
                                /\ associated_query r = Some (PStr message))
                 (fst community_stream)).
  { apply query_and_yield_Forall. intros x y Hy.
    apply community_result_shape in Hy. tauto. }
  unfold then_. destruct (snd entity_stream).
  - exists (fst entity_stream), []. rewrite app_nil_r.
    repeat split; [exact He | constructor].
  - exists (fst entity_stream), (fst community_stream).
    repeat split; assumption.
Qed.

(** X10: every result that [_run_logic] yields is tagged LOCAL, is an entity
    or a community result (never a relationship result), and records as its
    associated query one of the messages of the input. *)
Theorem results_are_tagged (input : stream string)
    (kg_search_settings : KGSearchSettings) :
  Forall (fun r =>
            method r = LOCAL
            /\ (result_type r = ENTITY \/ result_type r = COMMUNITY)
            /\ exists message,
                 In message (fst input)
                 /\ associated_query r = Some (PStr message))
    (fst (_run_logic async_get_embedding vector_query input
            kg_search_settings)).
Proof.
  unfold _run_logic.
  destruct (String.eqb _ "local"); [|constructor].
  destruct input as [messages ending]. cbn [fst snd].
  induction messages as [|message rest IH]; cbn [local_search];
    [constructor|].
  apply then_Forall.
  - unfold search_message.
    destruct (async_get_embedding message); [|constructor].
    apply then_Forall; apply query_and_yield_Forall; intros x y Hy.
    + apply entity_result_shape in Hy as (Hm & Ht & Hq & _).
      repeat split; [exact Hm | left; exact Ht |].
      exists message. split; [left; reflexivity | exact Hq].
    + apply community_result_shape in Hy as (Hm & Ht & Hq & _).
      repeat split; [exact Hm | right; exact Ht |].
      exists message. split; [left; reflexivity | exact Hq].
  - eapply Forall_impl; [exact IH|].
    intros r (Hm & Ht & message' & Hin & Hq).
    repeat split; [exact Hm | exact Ht |].
    exists message'. split; [right; exact Hin | exact Hq].
Qed.

Lemma local_search_app (kg_search_settings : KGSearchSettings)
    (done_ rest : list string) (ending : option exn) :
  Forall (fun m => snd (search_message' kg_search_settings m) = None) done_ ->
  local_search' (done_ ++ rest) ending kg_search_settings
    = (flat_map (fun m => fst (search_message' kg_search_settings m)) done_
       ++ fst (local_search' rest ending kg_search_settings),
       snd (local_search' rest ending kg_search_settings)).
Proof.
  induction 1 as [|m done_ Hm Hdone IH]; cbn [app flat_map local_search].
  - destruct (local_search _ _ rest ending kg_search_settings); reflexivity.
  - rewrite IH. unfold then_ at 1. rewrite Hm. cbn [fst snd].
    rewrite app_assoc. reflexivity.
Qed.

(** X11: a failure ends the stream where it happens.  When the searches of
    the first messages go through and the search of the next message raises
    (the embedding, a query, or a hit without an expected key), the pipe has
    yielded the results of the first messages and what that message yielded
    before the failure, then raises that exception; the later messages are
    not searched. *)
Theorem failure_ends_the_stream (kg_search_settings : KGSearchSettings)
    (done_ later : list string) (message : string) (ending : option exn)
    (e : exn) :
  Forall (fun m => snd (search_message' kg_search_settings m) = None) done_ ->
  snd (search_message' kg_search_settings message) = Some e ->
  local_search' (done_ ++ message :: later) ending kg_search_settings
    = (flat_map (fun m => fst (search_message' kg_search_settings m)) done_
       ++ fst (search_message' kg_search_settings message),
       Some e).
Proof.
  intros Hdone Hfail. rewrite (local_search_app _ _ _ _ Hdone).
  cbn [local_search]. unfold then_ at 1 2. rewrite Hfail.
  rewrite Hfail. reflexivity.
Qed.

(** X12: when every search goes through, the pipe yields the results of the
    messages in the order of the messages, and ends as its input ends. *)
Theorem results_follow_the_messages (kg_search_settings : KGSearchSettings)
    (messages : list string) (ending : option exn) :
  Forall (fun m => snd (search_message' kg_search_settings m) = None)
    messages ->
  local_search' messages ending kg_search_settings
    = (flat_map (fun m => fst (search_message' kg_search_settings m))
         messages,
       ending).
Proof.
  intros Hok.
  pose proof (local_search_app kg_search_settings messages [] ending Hok)
    as H.
  rewrite app_nil_r in H. rewrite H. cbn. rewrite app_nil_r. reflexivity.
Qed.

(** X13: a search type other than "local" yields nothing and raises the
    [ValueError] that names it, whatever the input and the collaborators. *)
Theorem unsupported_search_type (input : stream string)
    (kg_search_settings : KGSearchSettings) :
  kg_search_type kg_search_settings <> "local" ->
  _run_logic async_get_embedding vector_query input kg_search_settings
    = ([], Some (ValueError ("Unsupported KG search type: "
                             +:+ kg_search_type kg_search_settings))).
Proof.
  intros Hne. unfold _run_logic.
  destruct (String.eqb_spec (kg_search_type kg_search_settings) "local");
    [contradiction | reflexivity].
Qed.

End Pipe.

Lemma failure_ends_the_stream_witness :
  local_search KGSample.embedding KGSample.index (["q1"] ++ "bad" :: ["q2"])
      None (KGSample.settings "local")
    = (flat_map
         (fun m => fst (search_message KGSample.embedding KGSample.index
                          (KGSample.settings "local") m))
         ["q1"]
       ++ fst (search_message KGSample.embedding KGSample.index
                 (KGSample.settings "local") "bad"),
       Some (PostgresError "provider is down")).
Proof.
  apply (failure_ends_the_stream KGSample.embedding KGSample.index
           (KGSample.settings "local") ["q1"] ["q2"] "bad" None
           (PostgresError "provider is down")).
  - repeat constructor.
  - reflexivity.
Defined.

Lemma results_follow_the_messages_witness :
  local_search KGSample.embedding KGSample.index ["q1"; "q2"] None
      (KGSample.settings "local")
    = (flat_map
         (fun m => fst (search_message KGSample.embedding KGSample.index
                          (KGSample.settings "local") m))
         ["q1"; "q2"],
       None).
Proof.
  apply (results_follow_the_messages KGSample.embedding KGSample.index
           (KGSample.settings "local") ["q1"; "q2"] None).
  repeat constructor.
Defined.

Lemma unsupported_search_type_witness :
  _run_logic KGSample.embedding KGSample.index (["q1"], None)
      (KGSample.settings "global")
    = ([], Some (ValueError "Unsupported KG search type: global")).
Proof.
  apply (unsupported_search_type KGSample.embedding KGSample.index
           (["q1"], None) (KGSample.settings "global")).
  discriminate.
Defined.

End KGLocalFacts.

(* ===================================================================== *)
(** * The document store: more on upsert and delete                        *)
(* ===================================================================== *)

Module UpsertMore.
Import Py DocStore.

Lemma retry_loop_other_exception db_entry vs e (es : list exn) :
  forall retries fuel st,
    Forall (fun e => is_conflict e = true) es ->
    is_conflict e = false ->
    verdicts st = map Abort es ++ Abort e :: vs ->
    (retries + length es < max_retries)%nat ->
    (length es < fuel)%nat ->
    retry_loop fuel retries db_entry st
      = ({| table := table st;
            slept := slept st
                     ++ map wait_time (seq (S retries) (length es));
            verdicts := vs |}, Raise e).
Proof.
  induction es as [|e' es IH]; intros retries fuel st Hall He Hv Hlt Hfuel;
    (destruct fuel as [|fuel]; [cbn in Hfuel; lia|]);
    cbn [retry_loop]; cbn [length] in *;
    (replace (retries <? max_retries)%nat with true
       by (symmetry; apply Nat.ltb_lt; lia));
    cbn [negb]; unfold next_verdict; rewrite Hv; cbn [map app].
  - rewrite He. cbn. rewrite app_nil_r. reflexivity.
  - inversion Hall as [|? ? He' Hes]; subst. rewrite He'.
    replace (S retries =? max_retries)%nat with false
      by (symmetry; apply Nat.eqb_neq; lia).
    rewrite (IH (S retries) fuel) by (cbn; auto; lia).
    cbn [table slept verdicts seq map].
    rewrite <- app_assoc. reflexivity.
Qed.

(** X14: only uniqueness and deadlock conflicts are retried.  Any other
    exception of an attempt, also after earlier conflicts of the same
    document, leaves [upsert_documents_overview] at once: no further wait,
    the table as it was, and the rest of the batch not processed. *)
Theorem other_exception_not_retried (db_entry : Row) (rest : list Row)
    (st : Store) (es : list exn) (e : exn) (vs : list verdict) :
  Forall (fun e => is_conflict e = true) es ->
  (length es < max_retries)%nat ->
  is_conflict e = false ->
  verdicts st = map Abort es ++ Abort e :: vs ->
  upsert_documents_overview (db_entry :: rest) st
    = ({| table := table st;
          slept := slept st ++ map wait_time (seq 1 (length es));
          verdicts := vs |}, Raise e).
Proof.
  intros Hall Hlen He Hv. cbn [upsert_documents_overview].
  rewrite (retry_loop_other_exception db_entry vs e es 0 max_retries st
             Hall He Hv) by (cbn; lia).
  reflexivity.
Qed.

Lemma other_exception_not_retried_witness :
  upsert_documents_overview
      [Sample.doc 1 [] "pending" 0 5; Sample.doc 2 [] "pending" 0 6]
      (Sample.store Sample.one_row
         [Abort DeadlockDetectedError; Abort (PostgresError "disk full")])
    = ({| table := Sample.one_row;
          slept := [] ++ map wait_time (seq 1 1);
          verdicts := [] |}, Raise (PostgresError "disk full")).
Proof.
  apply (other_exception_not_retried (Sample.doc 1 [] "pending" 0 5)
           [Sample.doc 2 [] "pending" 0 6]
           (Sample.store Sample.one_row
              [Abort DeadlockDetectedError; Abort (PostgresError "disk full")])
           [DeadlockDetectedError] (PostgresError "disk full") []).
  - repeat constructor.
  - unfold max_retries. cbn. lia.
  - reflexivity.
  - reflexivity.
Defined.

Lemma total_app (a b : list Q) : (total (a ++ b) == total a + total b)%Q.
Proof.
  induction a as [|x a IH]; cbn.
  - rewrite Qplus_0_l. reflexivity.
  - rewrite IH. apply Qplus_assoc.
Qed.

(** X15: a document whose 20 attempts all hit a conflict keeps the call
    asleep for 104857.4 seconds in all (about 29 hours) before the conflict
    is raised. *)
Theorem total_wait_before_giving_up (db_entry : Row) (st : Store)
    (es : list exn) (e_last : exn) (vs : list verdict) :
  Forall (fun e => is_conflict e = true) es ->
  is_conflict e_last = true ->
  length es = 19%nat ->
  verdicts st = map Abort es ++ Abort e_last :: vs ->
  snd (upsert_documents_overview [db_entry] st) = Raise e_last
  /\ (total (slept (fst (upsert_documents_overview [db_entry] st)))
      == total (slept st) + (1048574 # 10))%Q.
Proof.
  intros Hall Hlast Hlen Hv. cbn [upsert_documents_overview].
  rewrite (UpsertFacts.retry_loop_exhausted db_entry vs e_last es 0
             max_retries st Hall Hlast Hv)
    by (rewrite Hlen; unfold max_retries; lia).
  cbn [fst snd slept]. split; [reflexivity|].
  rewrite total_app, Hlen. apply Qplus_inj_l. reflexivity.
Qed.

Lemma total_wait_before_giving_up_witness :
  (total (slept (fst (upsert_documents_overview
                        [Sample.doc 1 [] "pending" 0 5]
                        (Sample.store ∅ (Sample.conflicts 20)))))
   == total [] + (1048574 # 10))%Q.
Proof.
  refine (proj2 (total_wait_before_giving_up (Sample.doc 1 [] "pending" 0 5)
                   (Sample.store ∅ (Sample.conflicts 20))
                   (repeat UniqueViolationError 19) UniqueViolationError []
                   _ _ _ _)).
  - repeat constructor.
  - reflexivity.
  - reflexivity.
  - reflexivity.
Defined.

(** X16: one upsert of a document moves its stored attempt number by 0 or
    by +1, whatever the store answers to the attempts; so an incoming number
    that is more than one above the stored one is not taken over.  The row
    keeps its [document_id] and its [created_at]. *)
Theorem attempt_number_moves_by_one (st : Store) (db_entry stored : Row) :
  table st !! document_id db_entry = Some stored ->
  exists r,
    table (fst (upsert_documents_overview [db_entry] st))
      !! document_id db_entry = Some r
    /\ (ingestion_attempt_number r = ingestion_attempt_number stored
        \/ ingestion_attempt_number r = ingestion_attempt_number stored + 1)
    /\ (ingestion_attempt_number stored + 1
          < ingestion_attempt_number db_entry ->
        ingestion_attempt_number r <> ingestion_attempt_number db_entry)
    /\ created_at r = created_at stored
    /\ document_id r = document_id stored.
Proof.
  intros Hs. cbn [upsert_documents_overview].
  pose proof (UpsertFacts.retry_loop_table max_retries 0 db_entry st) as Ht.
  destruct (retry_loop max_retries 0 db_entry st) as [st' [u|e]];
    cbn [fst] in *.
  all: destruct Ht as [-> | ->];
    [ exists stored; repeat split; [exact Hs | left; reflexivity | lia]
    | unfold transaction; rewrite Hs; rewrite lookup_insert_eq;
      eexists; split; [reflexivity|]; cbn;
      unfold new_attempt_number; destruct (_ || _);
      repeat split; (lia || (left; reflexivity) || (right; reflexivity)) ].
Qed.

Lemma attempt_number_moves_by_one_witness :
  exists r,
    table (fst (upsert_documents_overview [Sample.doc 1 [] "success" 40 5]
                  (Sample.store Sample.one_row [])))
      !! 1%N = Some r
    /\ (ingestion_attempt_number r = 0 \/ ingestion_attempt_number r = 0 + 1)
    /\ (0 + 1 < 40 -> ingestion_attempt_number r <> 40)
    /\ created_at r = 100
    /\ document_id r = 1%N.
Proof.
  exact (attempt_number_moves_by_one (Sample.store Sample.one_row [])
           (Sample.doc 1 [] "success" 40 5)
           (Sample.doc 1 [5%N] "success" 0 100) eq_refl).
Defined.

Lemma upsert_new_id (db_entry : Row) (st : Store) (es : list exn)
    (vs : list verdict) :
  table st !! document_id db_entry = None ->
  Forall (fun e => is_conflict e = true) es ->
  (length es < max_retries)%nat ->
  verdicts st = map Abort es ++ Commit :: vs ->
  snd (upsert_documents_overview [db_entry] st) = Ok tt
  /\ table (fst (upsert_documents_overview [db_entry] st))
     = <[document_id db_entry := db_entry]> (table st).
Proof.
  intros Hnone Hall Hlen Hv. cbn [upsert_documents_overview].
  rewrite (UpsertFacts.retry_loop_conflicts db_entry vs es 0 max_retries st
             Hall Hv) by (cbn; lia).
  cbn. unfold transaction. rewrite Hnone. split; reflexivity.
Qed.

(** X17: the first upsert of a document id stores the entry as it is given,
    attempt number included, once an attempt commits (after fewer than 20
    conflicts); no other row changes. *)
Theorem first_upsert_stores_entry (db_entry : Row) (st : Store)
    (es : list exn) (vs : list verdict) :
  table st !! document_id db_entry = None ->
  Forall (fun e => is_conflict e = true) es ->
  (length es < max_retries)%nat ->
  verdicts st = map Abort es ++ Commit :: vs ->
  snd (upsert_documents_overview [db_entry] st) = Ok tt
  /\ table (fst (upsert_documents_overview [db_entry] st))
       !! document_id db_entry = Some db_entry
  /\ (forall d, d <> document_id db_entry ->
        table (fst (upsert_documents_overview [db_entry] st)) !! d
          = table st !! d).
Proof.
  intros Hnone Hall Hlen Hv.
  destruct (upsert_new_id db_entry st es vs Hnone Hall Hlen Hv) as [Hr Ht].
  rewrite Ht. split; [exact Hr|]. split.
  - apply lookup_insert_eq.
  - intros d Hd. apply lookup_insert_ne. congruence.
Qed.

Lemma first_upsert_stores_entry_witness :
  table (fst (upsert_documents_overview [Sample.doc 2 [] "pending" 3 6]
                (Sample.store Sample.one_row
                   [Abort UniqueViolationError; Commit])))
    !! 2%N = Some (Sample.doc 2 [] "pending" 3 6).
Proof.
  refine (proj1 (proj2 (first_upsert_stores_entry
                          (Sample.doc 2 [] "pending" 3 6)
                          (Sample.store Sample.one_row
                             [Abort UniqueViolationError; Commit])
                          [UniqueViolationError] [] _ _ _ _))).
  - reflexivity.
  - repeat constructor.
  - unfold max_retries. cbn. lia.
  - reflexivity.
Defined.

(** X18: the attempt number is monotone only while the row lives: after
    [delete_from_documents_overview] the next upsert of the document inserts
    the entry with the attempt number it brings, which may be lower than the
    one that was stored. *)
Theorem delete_then_upsert_restarts (db_entry : Row) (t : Table)
    (version : option string) (vs : list verdict) :
  version_given version = false ->
  table (fst (upsert_documents_overview [db_entry]
                {| table :=
                     delete_from_documents_overview (document_id db_entry)
                       version t;
                   slept := [];
                   verdicts := Commit :: vs |}))
    !! document_id db_entry = Some db_entry.
Proof.
  intros Hv.
  set (st := {| table := delete_from_documents_overview
                           (document_id db_entry) version t;
                slept := []; verdicts := Commit :: vs |}).
  assert (Hnone : table st !! document_id db_entry = None).
  { cbn. unfold delete_from_documents_overview. rewrite Hv.
    apply lookup_delete_eq. }
  destruct (upsert_new_id db_entry st [] vs Hnone) as [_ Ht];
    [constructor | unfold max_retries; cbn; lia | reflexivity |].
  rewrite Ht. apply lookup_insert_eq.
Qed.

Lemma delete_then_upsert_restarts_witness :
  ingestion_attempt_number
    <$> (table (fst (upsert_documents_overview [Sample.doc 1 [] "pending" 0 9]
                       {| table :=
                            delete_from_documents_overview 1%N None
                              {[ 1%N := Sample.doc 1 [] "success" 5 7 ]};
                          slept := [];
                          verdicts := [Commit] |}))
           !! 1%N)
    = Some 0.
Proof.
  rewrite (delete_then_upsert_restarts (Sample.doc 1 [] "pending" 0 9)
             {[ 1%N := Sample.doc 1 [] "success" 5 7 ]} None [] eq_refl).
  reflexivity.
Defined.

(** X19: [delete_from_documents_overview] with a non-empty version label
    removes the row only when that label is the stored one: with another
    label the table is unchanged, with the stored label the row is gone; a
    document id that is not stored is a no-op either way. *)
Theorem delete_with_version (id : N) (v : string) (t : Table) :
  v <> "" ->
  (forall r, t !! id = Some r -> version r <> v ->
     delete_from_documents_overview id (Some v) t = t)
  /\ (forall r, t !! id = Some r -> version r = v ->
       delete_from_documents_overview id (Some v) t = delete id t)
  /\ (t !! id = None ->
       delete_from_documents_overview id (Some v) t = t
       /\ delete_from_documents_overview id None t = t).
Proof.
  intros Hv. split; [|split].
  - intros r Hr Hne. exact (UpsertFacts.delete_other_version id v t r Hr Hv Hne).
  - intros r Hr He. unfold delete_from_documents_overview, version_given.
    destruct (String.eqb_spec v ""); [contradiction|]. cbn [negb].
    rewrite Hr. cbn. rewrite He, String.eqb_refl. reflexivity.
  - intros Hnone. unfold delete_from_documents_overview, version_given.
    destruct (String.eqb_spec v ""); [contradiction|]. cbn [negb].
    rewrite Hnone. split; [reflexivity|].
    apply delete_id. exact Hnone.
Qed.

Lemma delete_with_version_witness :
  delete_from_documents_overview 1%N (Some "v9") Sample.one_row
    = Sample.one_row
  /\ delete_from_documents_overview 1%N (Some "v0") Sample.one_row
     = delete 1%N Sample.one_row.
Proof.
  pose proof (delete_with_version 1%N "v9" Sample.one_row
                ltac:(discriminate)) as (Hother & _ & _).
  pose proof (delete_with_version 1%N "v0" Sample.one_row
                ltac:(discriminate)) as (_ & Hsame & _).
  split.
  - apply (Hother (Sample.doc 1 [5%N] "success" 0 100) eq_refl).
    discriminate.
  - apply (Hsame (Sample.doc 1 [5%N] "success" 0 100) eq_refl).
    reflexivity.
Defined.

End UpsertMore.

(* ===================================================================== *)
(** * The document store: more on the status and overview queries          *)
(* ===================================================================== *)

Module QueryMore.
Import Py DocStore.

Lemma in_scan (t : Table) (r : Row) :
  In r (scan t) <-> exists k, t !! k = Some r.
Proof.
  unfold scan. rewrite in_map_iff. split.
  - intros ([k r'] & <- & Hin). exists k.
    apply elem_of_map_to_list, list_elem_of_In. exact Hin.
  - intros [k Hk]. exists (k, r). split; [reflexivity|].
    apply list_elem_of_In, elem_of_map_to_list. exact Hk.
Qed.

Lemma existsb_N (x : N) (l : list N) : existsb (N.eqb x) l = true <-> In x l.
Proof.
  rewrite existsb_exists. split.
  - intros (y & Hy & E). apply N.eqb_eq in E. subst. exact Hy.
  - intros H. exists x. split; [exact H | apply N.eqb_refl].
Qed.

Lemma existsb_string (x : string) (l : list string) :
  existsb (String.eqb x) l = true <-> In x l.
Proof.
  rewrite existsb_exists. split.
  - intros (y & Hy & E). apply String.eqb_eq in E. subst. exact Hy.
  - intros H. exists x. split; [exact H | apply String.eqb_refl].
Qed.

(** ** Status *)

(** X20: [set_workflow_status] for the KG extraction status writes the given
    status, whatever string it is (it is not checked against the
    enumeration), into the rows of the listed document ids and changes no
    other column and no other row. *)
Theorem set_workflow_status_sets (enums : Enums)
    (relations : gmap string Table) (t : Table) (ids : list N)
    (status : string) :
  relations !! table_name (KGExtractionStatus enums) = Some t ->
  id_column (KGExtractionStatus enums) = "document_id" ->
  exists t',
    set_workflow_status enums relations (inr ids) "kg_extraction_status"
      status
      = Ok (<[table_name (KGExtractionStatus enums) := t']> relations)
    /\ (forall k, t !! k = None -> t' !! k = None)
    /\ (forall k r, t !! k = Some r ->
          exists r', t' !! k = Some r'
            /\ (~ In (document_id r) ids -> r' = r)
            /\ (In (document_id r) ids ->
                  r' = {| document_id := document_id r;
                          collection_ids := collection_ids r;
                          user_id := user_id r;
                          document_type := document_type r;
                          metadata := metadata r;
                          title := title r;
                          version := version r;
                          size_in_bytes := size_in_bytes r;
                          ingestion_status := ingestion_status r;
                          kg_extraction_status := status;
                          created_at := created_at r;
                          updated_at := updated_at r;
                          ingestion_attempt_number :=
                            ingestion_attempt_number r |})).
Proof.
  intros Hrel Hcol.
  unfold set_workflow_status, _set_status_in_table. unfold_bind.
  cbn [_get_status_model String.eqb Ascii.eqb Bool.eqb].
  rewrite Hrel, Hcol. cbn [set_text_column column String.eqb Ascii.eqb Bool.eqb].
  eexists. split; [reflexivity|]. split.
  - intros k Hk. rewrite lookup_fmap, Hk. reflexivity.
  - intros k r Hk. rewrite lookup_fmap, Hk. cbn [fmap option_fmap option_map].
    eexists. split; [reflexivity|].
    unfold selected. cbn [column String.eqb Ascii.eqb Bool.eqb uuid_eq_any].
    destruct (existsb (N.eqb (document_id r)) ids) eqn:E; cbn.
    + apply existsb_N in E. split; [contradiction | reflexivity].
    + split; [reflexivity|]. intros Hin. apply existsb_N in Hin. congruence.
Qed.

Lemma set_workflow_status_sets_witness :
  exists t',
    set_workflow_status Sample.enums Sample.relations (inr [1%N])
      "kg_extraction_status" "no such status"
      = Ok (<["document_info" := t']> Sample.relations)
    /\ kg_extraction_status <$> t' !! 1%N = Some "no such status".
Proof.
  destruct (set_workflow_status_sets Sample.enums Sample.relations
              Sample.one_row [1%N] "no such status" eq_refl eq_refl)
    as (t' & Hrun & _ & Hrows).
  exists t'. split; [exact Hrun|].
  destruct (Hrows 1%N (Sample.doc 1 [5%N] "success" 0 100) eq_refl)
    as (r' & Hr' & _ & Hset).
  rewrite Hr', (Hset ltac:(left; reflexivity)). reflexivity.
Defined.

(** X21: a status type other than "ingestion", "kg_extraction_status" and
    "kg_enrichment_status" (the column name "ingestion_status" included)
    makes the three status methods raise [R2RException] with status code 400
    and the message that names it, before any query. *)
Theorem unknown_status_type (enums : Enums) (relations : gmap string Table)
    (status_type : string) :
  status_type <> "ingestion" ->
  status_type <> "kg_extraction_status" ->
  status_type <> "kg_enrichment_status" ->
  let e := R2RException 400 ("Invalid status type: " +:+ status_type) in
  (forall id, get_workflow_status enums relations id status_type = Raise e)
  /\ (forall id status,
        set_workflow_status enums relations id status_type status = Raise e)
  /\ (forall status collection_id,
        get_document_ids_by_status enums relations status_type status
          collection_id = Raise e).
Proof.
  intros H1 H2 H3 e.
  assert (Hm : _get_status_model enums status_type = Raise e).
  { unfold _get_status_model.
    destruct (String.eqb_spec status_type "ingestion"); [contradiction|].
    destruct (String.eqb_spec status_type "kg_extraction_status");
      [contradiction|].
    destruct (String.eqb_spec status_type "kg_enrichment_status");
      [contradiction|].
    reflexivity. }
  repeat split; intros;
    unfold get_workflow_status, set_workflow_status,
      get_document_ids_by_status;
    unfold_bind; rewrite Hm; reflexivity.
Qed.

Lemma unknown_status_type_witness :
  set_workflow_status Sample.enums Sample.relations (inl 1%N)
      "ingestion_status" "success"
    = Raise (R2RException 400 "Invalid status type: ingestion_status").
Proof.
  pose proof (unknown_status_type Sample.enums Sample.relations
                "ingestion_status" ltac:(discriminate) ltac:(discriminate)
                ltac:(discriminate)) as (_ & Hset & _).
  exact (Hset (inl 1%N) "success").
Defined.

(** X22: with a collection id, [get_document_ids_by_status] for the KG
    extraction status returns exactly the ids of the rows whose status is
    one of the given values and whose collections include that id. *)
Theorem ids_by_status_in_collection (enums : Enums)
    (relations : gmap string Table) (t : Table) (status : list string)
    (c : N) :
  relations !! table_name (KGExtractionStatus enums) = Some t ->
  exists ids,
    get_document_ids_by_status enums relations "kg_extraction_status"
      (inr status) (Some c) = Ok ids
    /\ forall d,
         In d ids <->
         exists k r, t !! k = Some r /\ document_id r = d
                     /\ In (kg_extraction_status r) status
                     /\ In c (collection_ids r).
Proof.
  intros Hrel. eexists. split.
  - apply (StatusFacts.get_ids_with_collection enums relations
             "kg_extraction_status" status c (KGExtractionStatus enums) t
             kg_extraction_status); [reflexivity | exact Hrel | reflexivity].
  - intros d. rewrite in_map_iff. split.
    + intros (r & Hd & Hin). apply filter_In in Hin as [Hin Hc].
      apply andb_true_iff in Hc as [Hs Hc].
      apply in_scan in Hin as [k Hk].
      exists k, r. repeat split; try assumption.
      * apply existsb_string, Hs.
      * apply existsb_N, Hc.
    + intros (k & r & Hk & Hd & Hs & Hc). exists r. split; [exact Hd|].
      apply filter_In. split; [apply in_scan; eauto|].
      apply andb_true_iff. split; [apply existsb_string, Hs|].
      apply existsb_N, Hc.
Qed.

Lemma ids_by_status_in_collection_witness :
  exists ids,
    get_document_ids_by_status Sample.enums Sample.relations
      "kg_extraction_status" (inr ["success"; "failed"]) (Some 5%N) = Ok ids
    /\ In 1%N ids.
Proof.
  destruct (ids_by_status_in_collection Sample.enums Sample.relations
              Sample.one_row ["success"; "failed"] 5%N eq_refl)
    as (ids & Hrun & Hin).
  exists ids. split; [exact Hrun|]. apply Hin.
  exists 1%N, (Sample.doc 1 [5%N] "success" 0 100).
  repeat split; cbn; auto.
Defined.

End QueryMore.

(* ===================================================================== *)
(** * The document store: more on [get_documents_overview]                 *)
(* ===================================================================== *)

Module OverviewMore.
Import Py DocStore.

Lemma traverse_length {A B} (f : A -> result B) (l : list A) :
  forall bs, traverse f l = Ok bs -> length bs = length l.
Proof.
  induction l as [|a l IH]; intros bs H; cbn in H.
  - injection H as <-. reflexivity.
  - unfold_bind. destruct (f a); [|discriminate].
    destruct (traverse f l) as [bs'|]; [|discriminate].
    injection H as <-. cbn. f_equal. apply IH. reflexivity.
Qed.

Lemma traverse_raises {A B} (f : A -> result B) (l : list A) :
  Exists (fun a => exists e, f a = Raise e) l ->
  exists e, traverse f l = Raise e.
Proof.
  induction l as [|a l IH]; intros H; [inversion H|].
  cbn. unfold_bind. destruct (f a) as [b|e] eqn:Ea; [|eauto].
  inversion H as [? ? [e He]|? ? Hl]; subst; [congruence|].
  destruct (IH Hl) as [e ->]. eauto.
Qed.

Lemma to_document_info_id enums lim r d :
  to_document_info enums lim r = Ok d -> di_id d = document_id r.
Proof.
  unfold to_document_info. unfold_bind.
  destruct (enum_value _ (DocumentType enums) _); [|discriminate].
  destruct (Json.json_loads lim _); [|discriminate].
  destruct (enum_value _ (members (IngestionStatus enums)) _); [|discriminate].
  destruct (enum_value _ (members (KGExtractionStatus enums)) _);
    [|discriminate].
  intros H. injection H as <-. reflexivity.
Qed.

Lemma converted_ids enums lim (rows : list Row) (documents : list DocumentInfo) :
  Forall2 (fun r d => to_document_info enums lim r = Ok d) rows documents ->
  map di_id documents = map document_id rows.
Proof.
  induction 1 as [|r d rows documents Hd _ IH]; cbn; [reflexivity|].
  rewrite IH, (to_document_info_id _ _ _ _ Hd). reflexivity.
Qed.

Lemma filter_all {A} (f : A -> bool) (l : list A) :
  (forall a, f a = true) -> List.filter f l = l.
Proof.
  intros H. induction l as [|a l IH]; cbn; [reflexivity|].
  rewrite H, IH. reflexivity.
Qed.

(** What the call computes once the page arguments are accepted. *)
Lemma overview_unfold enums lim fu fd fc offset limit t :
  0 <= offset -> limit = -1 \/ 0 <= limit ->
  let matching := List.filter (matches fu fd fc) (scan t) in
  let pg := page_of offset limit (order_by_created_at_desc matching) in
  get_documents_overview enums lim fu fd fc offset limit t
    = match traverse (to_document_info enums lim) pg with
      | Ok documents =>
          Ok (documents,
              match pg with
              | [] => 0
              | _ :: _ => Z.of_nat (length matching)
              end)
      | Raise _ => Raise failed
      end.
Proof.
  intros Ho Hl matching pg.
  unfold get_documents_overview, overview_query. unfold_bind.
  fold matching. rewrite (OverviewFacts.page_ok offset limit _ Ho Hl).
  fold pg. rewrite map_map. cbn [fst]. rewrite map_id.
  destruct (traverse (to_document_info enums lim) pg); [|reflexivity].
  destruct pg; reflexivity.
Qed.

(** X23: with no filter, offset 0 and limit -1 the call returns one document
    for every stored row, newest first, and [total_entries] is the number of
    rows (rows that convert to a [DocumentInfo] assumed). *)
Theorem overview_of_everything (enums : Enums) (lim : Json.Limits) (t : Table) :
  Forall (fun r => exists d, to_document_info enums lim r = Ok d) (scan t) ->
  exists documents,
    get_documents_overview enums lim None None None 0 (-1) t
      = Ok (documents, Z.of_nat (size t))
    /\ length documents = size t
    /\ map di_id documents
       = map document_id (order_by_created_at_desc (scan t)).
Proof.
  intros Hconv.
  rewrite (overview_unfold enums lim None None None 0 (-1) t)
    by (lia || (left; reflexivity)).
  cbv zeta. rewrite (filter_all (matches None None None)) by reflexivity.
  change (page_of 0 (-1) (order_by_created_at_desc (scan t)))
    with (order_by_created_at_desc (scan t)).
  assert (Hconv' : Forall (fun r => exists d, to_document_info enums lim r = Ok d)
                     (order_by_created_at_desc (scan t))).
  { rewrite OverviewFacts.order_perm. exact Hconv. }
  destruct (OverviewFacts.traverse_ok _ _ Hconv') as (documents & -> & HF).
  assert (Hlen : length (order_by_created_at_desc (scan t)) = size t).
  { rewrite (Permutation_length (OverviewFacts.order_perm (scan t))).
    unfold scan. rewrite length_map. apply length_map_to_list. }
  exists documents. split; [|split].
  - f_equal. f_equal.
    assert (Hs : length (scan t) = size t).
    { unfold scan. rewrite length_map. apply length_map_to_list. }
    destruct (order_by_created_at_desc (scan t)); cbn in Hlen; lia.
  - rewrite <- Hlen. symmetry. eapply Forall2_length. exact HF.
  - apply (converted_ids enums lim). exact HF.
Qed.

Lemma overview_of_everything_witness :
  exists documents,
    get_documents_overview Sample.enums Sample.limits None None None 0 (-1) Sample.one_row
      = Ok (documents, Z.of_nat (size Sample.one_row))
    /\ length documents = size Sample.one_row.
Proof.
  destruct (overview_of_everything Sample.enums Sample.limits Sample.one_row
              ltac:(repeat constructor; eexists; reflexivity))
    as (documents & Hrun & Hlen & _).
  exists documents. split; assumption.
Defined.

Lemma page_arguments_refused (enums : Enums) (lim : Json.Limits)
    (fu fd fc : option (list N)) (offset limit : Z) (t : Table) :
  offset < 0 \/ limit < -1 ->
  get_documents_overview enums lim fu fd fc offset limit t = Raise failed.
Proof.
  intros H. unfold get_documents_overview, overview_query, page.
  unfold_bind.
  destruct (Z.ltb_spec offset 0); [reflexivity|].
  destruct (Z.eqb_spec limit (-1)); [lia|].
  destruct (Z.ltb_spec limit 0); [reflexivity | lia].
Qed.

(** X24: a negative offset, or a negative limit other than -1, makes the
    call raise [R2RException] with status code 500, whatever is stored and
    whatever the filters are. *)
Theorem overview_rejects_negative (enums : Enums) (lim : Json.Limits)
    (fu fd fc : option (list N)) (offset limit : Z) (t : Table) :
  offset < 0 \/ limit < -1 ->
  get_documents_overview enums lim fu fd fc offset limit t
    = Raise (R2RException 500 "Database query failed").
Proof. apply page_arguments_refused. Qed.

Lemma overview_rejects_negative_witness :
  get_documents_overview Sample.enums Sample.limits None None None 0 (-2) Sample.one_row
    = Raise failed.
Proof.
  apply (overview_rejects_negative Sample.enums Sample.limits None None None 0 (-2)
           Sample.one_row).
  right. lia.
Defined.

(** X25: one row on the requested page that does not convert (a type or a
    status outside its enumeration, metadata that is not JSON) fails the
    whole call with [R2RException] 500: no document of the page is
    returned. *)
Theorem overview_fails_on_one_bad_row (enums : Enums) (lim : Json.Limits)
    (fu fd fc : option (list N)) (offset limit : Z) (t : Table) :
  0 <= offset ->
  limit = -1 \/ 0 <= limit ->
  Exists (fun r => exists e, to_document_info enums lim r = Raise e)
    (page_of offset limit
       (order_by_created_at_desc (List.filter (matches fu fd fc) (scan t)))) ->
  get_documents_overview enums lim fu fd fc offset limit t = Raise failed.
Proof.
  intros Ho Hl Hbad. rewrite (overview_unfold enums lim fu fd fc offset limit t Ho Hl).
  cbv zeta. destruct (traverse_raises _ _ Hbad) as [e ->]. reflexivity.
Qed.

Lemma overview_fails_on_one_bad_row_witness :
  get_documents_overview Sample.enums Sample.limits None None None 0 (-1)
      (<[ 2%N := Sample.doc 2 [] "no such status" 0 50 ]> Sample.one_row)
    = Raise failed.
Proof.
  apply (overview_fails_on_one_bad_row Sample.enums Sample.limits None None None 0 (-1)
           (<[ 2%N := Sample.doc 2 [] "no such status" 0 50 ]> Sample.one_row)).
  - lia.
  - left. reflexivity.
  - apply Exists_cons_tl, Exists_cons_hd. eexists. reflexivity.
Defined.

(** X26: an empty list as a filter is the same as no filter: it restricts
    nothing (it does not select the empty set of documents). *)
Theorem empty_filter_is_no_filter (enums : Enums) (lim : Json.Limits)
    (fu fd fc : option (list N)) (offset limit : Z) (t : Table) :
  get_documents_overview enums lim (Some []) fd fc offset limit t
    = get_documents_overview enums lim None fd fc offset limit t
  /\ get_documents_overview enums lim fu (Some []) fc offset limit t
     = get_documents_overview enums lim fu None fc offset limit t
  /\ get_documents_overview enums lim fu fd (Some []) offset limit t
     = get_documents_overview enums lim fu fd None offset limit t.
Proof. repeat split. Qed.

(** X27: a returned page never has more documents than [limit] (for a
    non-negative limit), and never more than [total_entries]. *)
Theorem overview_page_bounds (enums : Enums) (lim : Json.Limits) (fu fd fc : option (list N))
    (offset limit : Z) (t : Table) (documents : list DocumentInfo)
    (total_entries : Z) :
  get_documents_overview enums lim fu fd fc offset limit t
    = Ok (documents, total_entries) ->
  Z.of_nat (length documents) <= total_entries
  /\ (0 <= limit -> Z.of_nat (length documents) <= limit).
Proof.
  intros H.
  destruct (Z.ltb_spec offset 0) as [Ho|Ho];
    [rewrite page_arguments_refused in H by (left; exact Ho);
     discriminate H|].
  destruct (Z.ltb_spec limit (-1)) as [Hl|Hl];
    [rewrite page_arguments_refused in H by (right; exact Hl);
     discriminate H|].
  rewrite (overview_unfold enums lim fu fd fc offset limit t Ho) in H by lia.
  cbv zeta in H.
  set (matching := List.filter (matches fu fd fc) (scan t)) in *.
  set (ordered := order_by_created_at_desc matching) in *.
  destruct (traverse (to_document_info enums lim) (page_of offset limit ordered))
    as [docs|e] eqn:Et; [|discriminate H].
  apply traverse_length in Et.
  assert (Hpage : (length (page_of offset limit ordered) <= length matching)%nat
                  /\ (0 <= limit ->
                      Z.of_nat (length (page_of offset limit ordered))
                        <= limit)).
  { pose proof (Permutation_length (OverviewFacts.order_perm matching)) as Hp.
    fold ordered in Hp. unfold page_of.
    destruct (Z.eqb_spec limit (-1)).
    - rewrite length_drop. split; lia.
    - rewrite length_take, length_drop. split; lia. }
  destruct Hpage as [Hp1 Hp2].
  injection H as <- <-. rewrite Et. split; [|exact Hp2].
  destruct (page_of offset limit ordered); cbn in *; lia.
Qed.

Lemma overview_page_bounds_witness :
  Z.of_nat (length [ {| di_id := 1%N; di_collection_ids := [5%N];
                        di_user_id := 7%N; di_document_type := "txt";
                        di_metadata := PDict []; di_title := "t";
                        di_version := "v0"; di_size_in_bytes := 10;
                        di_ingestion_status := "success";
                        di_kg_extraction_status := "success";
                        di_created_at := 100; di_updated_at := 100 |} ])
    <= 1
  /\ (0 <= 3 ->
      Z.of_nat (length [ {| di_id := 1%N; di_collection_ids := [5%N];
                            di_user_id := 7%N; di_document_type := "txt";
                            di_metadata := PDict []; di_title := "t";
                            di_version := "v0"; di_size_in_bytes := 10;
                            di_ingestion_status := "success";
                            di_kg_extraction_status := "success";
                            di_created_at := 100; di_updated_at := 100 |} ])
        <= 3).
Proof.
  apply (overview_page_bounds Sample.enums Sample.limits None None None 0 3 Sample.one_row).
  reflexivity.
Defined.

(** ** Looking a document up by its id *)

Lemma keyed_by_id_insert (t : Table) (r : Row) :
  keyed_by_id t -> keyed_by_id (<[document_id r := r]> t).
Proof.
  intros Hk k r' H.
  destruct (decide (k = document_id r)) as [->|Hne].
  - rewrite lookup_insert_eq in H. injection H as <-. reflexivity.
  - rewrite lookup_insert_ne in H by congruence. apply Hk, H.
Qed.

Lemma filter_by_id (id : N) (t : Table) :
  keyed_by_id t ->
  List.filter (fun r => N.eqb (document_id r) id) (scan t)
    = match t !! id with
      | Some r => [r]
      | None => []
      end.
Proof.
  induction t as [|k x m Hk Hfirst IH] using map_first_key_ind; intros Hkeyed.
  - unfold scan. rewrite map_to_list_empty. reflexivity.
  - assert (Hm : keyed_by_id m).
    { intros k' r' H'. apply Hkeyed.
      rewrite lookup_insert_ne; [exact H'|]. intros ->. congruence. }
    assert (Hx : document_id x = k).
    { apply Hkeyed. apply lookup_insert_eq. }
    unfold scan in *.
    rewrite map_to_list_insert_first_key by assumption.
    cbn [map List.filter snd]. rewrite (IH Hm). rewrite Hx.
    destruct (N.eqb_spec k id) as [->|Hne].
    + rewrite lookup_insert_eq, Hk. reflexivity.
    + rewrite lookup_insert_ne by exact Hne. reflexivity.
Qed.

Lemma matches_by_id (id : N) (r : Row) :
  matches None (Some [id]) None r = N.eqb (document_id r) id.
Proof.
  unfold matches. cbn. rewrite orb_false_r, !andb_true_r. reflexivity.
Qed.

Lemma overview_by_id_found (enums : Enums) (lim : Json.Limits) (t : Table) (id : N) (r : Row)
    (d : DocumentInfo) :
  keyed_by_id t -> t !! id = Some r -> to_document_info enums lim r = Ok d ->
  get_documents_overview enums lim None (Some [id]) None 0 (-1) t = Ok ([d], 1).
Proof.
  intros Hk Hr Hd.
  rewrite (overview_unfold enums lim None (Some [id]) None 0 (-1) t)
    by (lia || (left; reflexivity)).
  cbv zeta. rewrite (filter_ext _ _ (matches_by_id id)).
  rewrite (filter_by_id id t Hk), Hr.
  change (page_of 0 (-1) (order_by_created_at_desc [r])) with [r].
  cbn [traverse]. unfold_bind. rewrite Hd. reflexivity.
Qed.

(** X28: on a table whose rows sit under their own ids, filtering the
    overview by one document id gives exactly the document of the stored row
    with [total_entries] 1 when the id is stored and its row converts to a
    [DocumentInfo], raises [R2RException] 500 when the id is stored and its
    row does not convert, and gives an empty page with [total_entries] 0
    when the id is not stored. *)
Theorem overview_by_id (enums : Enums) (lim : Json.Limits) (t : Table)
    (id : N) :
  keyed_by_id t ->
  (forall r d, t !! id = Some r -> to_document_info enums lim r = Ok d ->
     get_documents_overview enums lim None (Some [id]) None 0 (-1) t
       = Ok ([d], 1))
  /\ (forall r e, t !! id = Some r -> to_document_info enums lim r = Raise e ->
       get_documents_overview enums lim None (Some [id]) None 0 (-1) t
         = Raise (R2RException 500 "Database query failed"))
  /\ (t !! id = None ->
      get_documents_overview enums lim None (Some [id]) None 0 (-1) t
        = Ok ([], 0)).
Proof.
  intros Hk. split; [|split].
  - intros r d. apply overview_by_id_found. exact Hk.
  - intros r e Hr He.
    rewrite (overview_unfold enums lim None (Some [id]) None 0 (-1) t)
      by (lia || (left; reflexivity)).
    cbv zeta. rewrite (filter_ext _ _ (matches_by_id id)).
    rewrite (filter_by_id id t Hk), Hr.
    change (page_of 0 (-1) (order_by_created_at_desc [r])) with [r].
    cbn [traverse]. unfold_bind. rewrite He. reflexivity.
  - intros Hnone.
    rewrite (overview_unfold enums lim None (Some [id]) None 0 (-1) t)
      by (lia || (left; reflexivity)).
    cbv zeta. rewrite (filter_ext _ _ (matches_by_id id)).
    rewrite (filter_by_id id t Hk), Hnone. reflexivity.
Qed.

Lemma sample_keyed : keyed_by_id Sample.one_row.
Proof.
  intros k r H. unfold Sample.one_row in H.
  apply lookup_singleton_Some in H as [<- <-]. reflexivity.
Qed.

Lemma overview_by_id_witness :
  get_documents_overview Sample.enums Sample.limits None (Some [9%N]) None 0
      (-1) Sample.one_row
    = Ok ([], 0)
  /\ (exists d,
       get_documents_overview Sample.enums Sample.limits None (Some [1%N])
           None 0 (-1) Sample.one_row
         = Ok ([d], 1)).
Proof.
  pose proof (overview_by_id Sample.enums Sample.limits Sample.one_row 9%N
                sample_keyed) as (_ & _ & Habsent).
  pose proof (overview_by_id Sample.enums Sample.limits Sample.one_row 1%N
                sample_keyed) as (Hfound & _ & _).
  split; [exact (Habsent eq_refl)|].
  eexists. apply (Hfound (Sample.doc 1 [5%N] "success" 0 100)); reflexivity.
Defined.

(** X29: what is upserted can be read back: after the first upsert of a
    document commits, the overview filtered by its id returns exactly the
    document of the entry, with [total_entries] 1. *)
Theorem upsert_then_overview (enums : Enums) (lim : Json.Limits) (st : Store) (db_entry : Row)
    (vs : list verdict) (d : DocumentInfo) :
  keyed_by_id (table st) ->
  table st !! document_id db_entry = None ->
  verdicts st = Commit :: vs ->
  to_document_info enums lim db_entry = Ok d ->
  get_documents_overview enums lim None (Some [document_id db_entry]) None 0 (-1)
      (table (fst (upsert_documents_overview [db_entry] st)))
    = Ok ([d], 1).
Proof.
  intros Hk Hnone Hv Hd.
  destruct (UpsertMore.upsert_new_id db_entry st [] vs Hnone) as [_ Ht];
    [constructor | unfold max_retries; cbn; lia | exact Hv |].
  rewrite Ht.
  apply (overview_by_id_found enums lim _ (document_id db_entry) db_entry d).
  - apply keyed_by_id_insert, Hk.
  - apply lookup_insert_eq.
  - exact Hd.
Qed.

Lemma upsert_then_overview_witness :
  exists d,
    get_documents_overview Sample.enums Sample.limits None (Some [2%N]) None 0 (-1)
        (table (fst (upsert_documents_overview
                       [Sample.doc 2 [] "pending" 0 50]
                       (Sample.store Sample.one_row [Commit]))))
      = Ok ([d], 1)
    /\ di_id d = 2%N.
Proof.
  eexists. split.
  - refine (upsert_then_overview Sample.enums Sample.limits
              (Sample.store Sample.one_row [Commit])
              (Sample.doc 2 [] "pending" 0 50) [] _ sample_keyed _ _ _);
      reflexivity.
  - reflexivity.
Defined.

End OverviewMore.
